(** * SmartBuffer: a growable byte buffer with read and write cursors

    A shallow embedding of [mod.ts] (class [SmartBuffer]) and [utils.ts]
    of deno-smart-buffer, and the properties of its specification.

    Layout of the development:
    - [JS]: the JavaScript values the code computes with (numbers with
      NaN and the infinities, and the dynamically typed arguments);
    - [Buffer]: the part of the platform's [node:buffer] the class calls;
    - the functions of [utils.ts];
    - the class [SmartBuffer]: a record for the instance and one
      definition per method, in a state-and-exception monad because a
      method that throws keeps the assignments it made before throwing;
    - the lemmas and the theorems. *)

From Stdlib Require Import ZArith QArith Qround List String Bool Lia SpecFloat.
From coqutil Require Import Byte Word.LittleEndianList.
Import ListNotations.
Local Open Scope Z_scope.

(** ** JavaScript values *)

Module JS.

(** A JavaScript number.  Finite values are exact rationals: offsets,
    lengths and capacities stay far below 2^53, where doubles are exact
    on the integers and the halves the growth policy produces.  Signed
    zeros are not distinguished. *)
Inductive number : Type :=
| Fin (q : Q)
| NaN
| PInf
| NInf.

Definition Int (z : Z) : number := Fin (inject_Z z).

Definition Qltb (x y : Q) : bool := negb (Qle_bool y x).

Definition nneg (a : number) : number :=
  match a with
  | Fin x => Fin (- x)
  | NaN => NaN
  | PInf => NInf
  | NInf => PInf
  end.

(** [a + b] *)
Definition nadd (a b : number) : number :=
  match a, b with
  | NaN, _ | _, NaN => NaN
  | PInf, NInf | NInf, PInf => NaN
  | PInf, _ | _, PInf => PInf
  | NInf, _ | _, NInf => NInf
  | Fin x, Fin y => Fin (x + y)
  end.

(** [a - b] *)
Definition nsub (a b : number) : number := nadd a (nneg b).

Definition nsgn (a : number) : option comparison :=
  match a with
  | Fin q => Some (q ?= 0)%Q
  | PInf => Some Gt
  | NInf => Some Lt
  | NaN => None
  end.

Definition sgn_mul (c d : comparison) : comparison :=
  match c, d with
  | Eq, _ | _, Eq => Eq
  | Lt, Lt | Gt, Gt => Gt
  | _, _ => Lt
  end.

Definition inf_of (c : comparison) : number :=
  match c with
  | Gt => PInf
  | Lt => NInf
  | Eq => NaN
  end.

(** [a * b] *)
Definition nmul (a b : number) : number :=
  match a, b with
  | Fin x, Fin y => Fin (x * y)
  | _, _ =>
      match nsgn a, nsgn b with
      | Some c, Some d => inf_of (sgn_mul c d)
      | _, _ => NaN
      end
  end.

(** [a / b] *)
Definition ndiv (a b : number) : number :=
  match a, b with
  | Fin x, Fin y =>
      if Qeq_bool y 0 then inf_of (x ?= 0)%Q else Fin (x / y)
  | Fin _, (PInf | NInf) => Fin 0
  | (PInf | NInf), Fin y =>
      match nsgn a with
      | Some c => inf_of (sgn_mul c (if Qeq_bool y 0 then Gt else (y ?= 0)%Q))
      | None => NaN
      end
  | _, _ => NaN
  end.

(** [a < b]; false as soon as one side is NaN. *)
Definition nlt (a b : number) : bool :=
  match a, b with
  | NaN, _ | _, NaN => false
  | Fin x, Fin y => Qltb x y
  | NInf, NInf | PInf, PInf => false
  | NInf, _ | _, PInf => true
  | _, _ => false
  end.

(** [a > b] *)
Definition ngt (a b : number) : bool := nlt b a.

(** [a === b] on numbers *)
Definition neqb (a b : number) : bool :=
  match a, b with
  | Fin x, Fin y => Qeq_bool x y
  | PInf, PInf | NInf, NInf => true
  | _, _ => false
  end.

Definition is_nan (a : number) : bool :=
  match a with NaN => true | _ => false end.

(** [Math.min(a, b)] and [Math.max(a, b)] *)
Definition Math_min (a b : number) : number :=
  if is_nan a || is_nan b then NaN else if nlt b a then b else a.

Definition Math_max (a b : number) : number :=
  if is_nan a || is_nan b then NaN else if nlt a b then b else a.

(** [Math.floor(a)] *)
Definition Math_floor (a : number) : number :=
  match a with
  | Fin q => Int (Qfloor q)
  | _ => a
  end.

(** [isFinite(a)] *)
Definition isFinite (a : number) : bool :=
  match a with Fin _ => true | _ => false end.

(** Truthiness of a number: every number but 0 and NaN. *)
Definition truthy (a : number) : bool :=
  match a with
  | Fin q => negb (Qeq_bool q 0)
  | NaN => false
  | _ => true
  end.

(** The integer a number denotes, when it denotes one. *)
Definition integer_value (a : number) : option Z :=
  match a with
  | Fin q => if Qeq_bool (inject_Z (Qfloor q)) q then Some (Qfloor q) else None
  | _ => None
  end.

(** An argument as a method receives it at run time: the TypeScript
    types are erased, so an offset may be absent, a number of any kind,
    or a string (an encoding name, or a wrong argument). *)
Inductive value : Type :=
| undefined
| Num (n : number)
| Str (s : string).

End JS.
Import JS.

(** ** Errors and results *)

(** The errors of [utils.ts] ([ERRORS]), the two capability errors of
    [bigIntAndBufferInt64Check], and the [RangeError] the platform's
    buffer raises. *)
Inductive Error : Type :=
| INVALID_ENCODING
| INVALID_SMARTBUFFER_SIZE
| INVALID_SMARTBUFFER_BUFFER
| INVALID_SMARTBUFFER_OBJECT
| INVALID_OFFSET
| INVALID_OFFSET_NON_NUMBER
| INVALID_LENGTH
| INVALID_LENGTH_NON_NUMBER
| INVALID_TARGET_OFFSET
| INVALID_TARGET_LENGTH
| INVALID_READ_BEYOND_BOUNDS
| INVALID_WRITE_BEYOND_BOUNDS
| PLATFORM_NO_BIGINT
| PLATFORM_NO_BUFFER_METHOD
| RangeError.

Inductive Result (A : Type) : Type :=
| Ok (a : A)
| Throw (e : Error).
Arguments Ok {A} a.
Arguments Throw {A} e.

(** ** The platform *)

(** What the platform decides and the code cannot see: the content of
    memory handed out by [Buffer.allocUnsafe], the text codec behind
    [Buffer.byteLength], [buf.write] and [buf.toString], the encoding
    names [Buffer.isEncoding] accepts, whether BigInt exists, and which
    accessors [Buffer.prototype] has. *)
Class Platform : Type := {
  unsafe_byte : nat -> byte;
  isEncoding : string -> bool;
  encodeText : string -> string -> list byte;
  decodeText : string -> list byte -> string;
  hasBigInt : bool;
  hasBufferMethod : string -> bool
}.

(** A buffer is its sequence of bytes.  Views made by [slice] and the
    buffer a caller hands to [fromBuffer] share memory with their source
    in JavaScript; here each is the content at the time it is taken. *)
Definition Buffer : Type := list byte.

Module Buffer.
Section WithPlatform.
Context {P : Platform}.

Definition size (b : Buffer) : Z := Z.of_nat (List.length b).

(** [buf.length] *)
Definition length (b : Buffer) : number := Int (size b).

(** [buf[i]]: undefined outside the buffer and at a non-integer index. *)
Definition index (b : Buffer) (i : number) : option byte :=
  match integer_value i with
  | Some z => if z <? 0 then None else nth_error b (Z.to_nat z)
  | None => None
  end.

(** [Buffer.allocUnsafe(size)]: a fresh region of [size] bytes, fractions
    dropped, of unspecified content.  Memory is unbounded here: the
    platform's maximal length is not modelled. *)
Definition allocUnsafe (n : number) : Result Buffer :=
  match n with
  | Fin q =>
      if Qle_bool 0 q
      then Ok (map unsafe_byte (seq 0 (Z.to_nat (Qfloor q))))
      else Throw RangeError
  | _ => Throw RangeError
  end.

(** The platform's coercion of an index argument: floor of a finite
    number, the default for NaN and the infinities. *)
Definition toInteger (n : option number) (defaultVal : Z) : Z :=
  match n with
  | Some (Fin q) => Qfloor q
  | _ => defaultVal
  end.

(** [bytes] laid over [b] from position [o] on. *)
Definition overwrite (b : Buffer) (o : Z) (bytes : list byte) : Buffer :=
  firstn (Z.to_nat o) b ++ bytes
    ++ skipn (Z.to_nat o + List.length bytes) b.

(** [source.copy(target, targetStart, sourceStart, sourceEnd)]; the
    result is the content of [target] afterwards.  The bytes are taken
    from [source] as it was before the call, which is what the platform
    guarantees when the two regions overlap in one buffer. *)
Definition copy (source target : Buffer) (targetStart : number)
    (sourceStart sourceEnd : option number) : Result Buffer :=
  let targetStart := toInteger (Some targetStart) 0 in
  let sourceStart := toInteger sourceStart 0 in
  let sourceEnd :=
    match sourceEnd with
    | None => size source
    | Some _ => toInteger sourceEnd 0
    end in
  if targetStart <? 0 then Throw RangeError
  else if (sourceStart <? 0) || (size source <? sourceStart) then Throw RangeError
  else if sourceEnd <? 0 then Throw RangeError
  else if (size target <=? targetStart) || (sourceEnd <=? sourceStart) then Ok target
  else
    let nb := Z.min (Z.min (sourceEnd - sourceStart) (size target - targetStart))
                (size source - sourceStart) in
    Ok (overwrite target targetStart
          (firstn (Z.to_nat nb) (skipn (Z.to_nat sourceStart) source))).

(** The clamping [slice] applies to each bound: a negative bound counts
    from the end. *)
Definition adjustOffset (offset : number) (len : Z) : Z :=
  match offset with
  | NaN => 0
  | PInf => len
  | NInf => 0
  | Fin q =>
      let o := Qfloor q in
      if o <? 0 then Z.max 0 (o + len)
      else if o <? len then o else len
  end.

(** [buf.slice(start, end)] *)
Definition slice (b : Buffer) (start end_ : number) : Buffer :=
  let s := adjustOffset start (size b) in
  let e := adjustOffset end_ (size b) in
  firstn (Z.to_nat (e - s)) (skipn (Z.to_nat s) b).

(** [buf.toString(encoding)] and [Buffer.byteLength(string, encoding)] *)
Definition toString (b : Buffer) (encoding : string) : string :=
  decodeText encoding b.

Definition byteLength (s : string) (encoding : string) : number :=
  Int (size (encodeText encoding s)).

Definition validateOffset (v : number) (lo hi : Z) : Result Z :=
  match integer_value v with
  | Some z => if (lo <=? z) && (z <=? hi) then Ok z else Throw RangeError
  | None => Throw RangeError
  end.

(** [buf.write(string, offset, length, encoding)]: at most [length]
    bytes of the encoded text, and no more than fit after [offset]. *)
Definition write (b : Buffer) (s : string) (offset len : number)
    (encoding : string) : Result Buffer :=
  match validateOffset offset 0 (size b) with
  | Throw e => Throw e
  | Ok o =>
      match validateOffset len 0 (size b) with
      | Throw e => Throw e
      | Ok l =>
          let remaining := size b - o in
          let l := if remaining <? l then remaining else l in
          Ok (overwrite b o (firstn (Z.to_nat l) (encodeText encoding s)))
      end
  end.

(** The bounds test of the fixed-width accessors: an integer offset with
    [byteLength] bytes of the buffer after it. *)
Definition checkBounds (b : Buffer) (offset : number) (byteLength : Z)
  : Result Z :=
  match integer_value offset with
  | Some o =>
      if (0 <=? o) && (o + byteLength <=? size b) then Ok o
      else Throw RangeError
  | None => Throw RangeError
  end.

Definition byteOrder (bigEndian : bool) (bytes : list byte) : list byte :=
  if bigEndian then rev bytes else bytes.

(** *** Integers *)

Record IntLayout : Type := {
  int_bytes : nat;
  int_signed : bool;
  int_bigEndian : bool
}.

Definition int_bits (L : IntLayout) : Z := 8 * Z.of_nat (int_bytes L).

Definition minValue (L : IntLayout) : Z :=
  if int_signed L then - 2 ^ (int_bits L - 1) else 0.

Definition maxValue (L : IntLayout) : Z :=
  if int_signed L then 2 ^ (int_bits L - 1) - 1 else 2 ^ int_bits L - 1.

(** The bytes of an integer in a layout, its two's complement in the
    layout's byte order, and the integer a field holds. *)
Definition bytes_of_int (L : IntLayout) (v : Z) : list byte :=
  byteOrder (int_bigEndian L) (le_split (int_bytes L) v).

Definition int_of_bytes (L : IntLayout) (bytes : list byte) : Z :=
  let u := le_combine (byteOrder (int_bigEndian L) bytes) in
  if int_signed L && (maxValue L <? u) then u - 2 ^ int_bits L else u.

(** [buf.write(U)Int..(value, offset)]: a value outside the range of the
    layout is refused. *)
Definition writeInteger (L : IntLayout) (b : Buffer) (v : Z)
    (offset : number) : Result Buffer :=
  if (v <? minValue L) || (maxValue L <? v) then Throw RangeError
  else
    match checkBounds b offset (Z.of_nat (int_bytes L)) with
    | Throw e => Throw e
    | Ok o => Ok (overwrite b o (bytes_of_int L v))
    end.

(** [buf.read(U)Int..(offset)] *)
Definition readInteger (L : IntLayout) (b : Buffer) (offset : number)
  : Result Z :=
  match checkBounds b offset (Z.of_nat (int_bytes L)) with
  | Throw e => Throw e
  | Ok o => Ok (int_of_bytes L (firstn (int_bytes L) (skipn (Z.to_nat o) b)))
  end.

Definition Int8 : IntLayout := Build_IntLayout 1 true false.
Definition Int16BE : IntLayout := Build_IntLayout 2 true true.
Definition Int16LE : IntLayout := Build_IntLayout 2 true false.
Definition Int32BE : IntLayout := Build_IntLayout 4 true true.
Definition Int32LE : IntLayout := Build_IntLayout 4 true false.
Definition BigInt64BE : IntLayout := Build_IntLayout 8 true true.
Definition BigInt64LE : IntLayout := Build_IntLayout 8 true false.
Definition UInt8 : IntLayout := Build_IntLayout 1 false false.
Definition UInt16BE : IntLayout := Build_IntLayout 2 false true.
Definition UInt16LE : IntLayout := Build_IntLayout 2 false false.
Definition UInt32BE : IntLayout := Build_IntLayout 4 false true.
Definition UInt32LE : IntLayout := Build_IntLayout 4 false false.
Definition BigUInt64BE : IntLayout := Build_IntLayout 8 false true.
Definition BigUInt64LE : IntLayout := Build_IntLayout 8 false false.

(** *** Floats *)

(** An IEEE 754 binary interchange format: the widths of the fraction
    and exponent fields.  A number is written as a [spec_float]; the one
    read from a field is in the normal form of the field's format. *)
Record FloatLayout : Type := {
  fraction_bits : Z;
  exponent_bits : Z
}.

Definition binary32 : FloatLayout := Build_FloatLayout 23 8.
Definition binary64 : FloatLayout := Build_FloatLayout 52 11.

Definition float_prec (F : FloatLayout) : Z := fraction_bits F + 1.
Definition float_emax (F : FloatLayout) : Z := 2 ^ (exponent_bits F - 1).
Definition float_emin (F : FloatLayout) : Z := emin (float_prec F) (float_emax F).
Definition float_bytes (F : FloatLayout) : nat :=
  Z.to_nat ((1 + exponent_bits F + fraction_bits F) / 8).

(** The conversion of a number to the format (round to nearest, ties to
    even), the identity on what the format represents. *)
Definition toFormat (F : FloatLayout) (v : spec_float) : spec_float :=
  match v with
  | S754_finite s m e => binary_round (float_prec F) (float_emax F) s m e
  | _ => v
  end.

Definition join_bits (F : FloatLayout) (s : bool) (e m : Z) : Z :=
  ((if s then 2 ^ exponent_bits F else 0) + e) * 2 ^ fraction_bits F + m.

Definition bits_of_float (F : FloatLayout) (v : spec_float) : Z :=
  match v with
  | S754_zero s => join_bits F s 0 0
  | S754_infinity s => join_bits F s (2 ^ exponent_bits F - 1) 0
  | S754_nan =>
      join_bits F false (2 ^ exponent_bits F - 1) (2 ^ (fraction_bits F - 1))
  | S754_finite s m e =>
      if 2 ^ fraction_bits F <=? Z.pos m
      then join_bits F s (e - float_emin F + 1) (Z.pos m - 2 ^ fraction_bits F)
      else join_bits F s 0 (Z.pos m)
  end.

Definition float_of_bits (F : FloatLayout) (x : Z) : spec_float :=
  let m := x mod 2 ^ fraction_bits F in
  let e := (x / 2 ^ fraction_bits F) mod 2 ^ exponent_bits F in
  let s := Z.odd (x / 2 ^ (fraction_bits F + exponent_bits F)) in
  if e =? 0 then
    match m with
    | Z.pos p => S754_finite s p (float_emin F)
    | _ => S754_zero s
    end
  else if e =? 2 ^ exponent_bits F - 1 then
    if m =? 0 then S754_infinity s else S754_nan
  else
    match m + 2 ^ fraction_bits F with
    | Z.pos p => S754_finite s p (e + float_emin F - 1)
    | _ => S754_nan
    end.

(** The bytes of a number in a format, the number being converted to
    the format first, and the number a field holds. *)
Definition bytes_of_float (F : FloatLayout) (bigEndian : bool)
    (v : spec_float) : list byte :=
  byteOrder bigEndian
    (le_split (float_bytes F) (bits_of_float F (toFormat F v))).

Definition float_of_bytes (F : FloatLayout) (bigEndian : bool)
    (bytes : list byte) : spec_float :=
  float_of_bits F (le_combine (byteOrder bigEndian bytes)).

(** [buf.writeFloat..] and [buf.writeDouble..]: no range test on the
    value. *)
Definition writeFloating (F : FloatLayout) (bigEndian : bool) (b : Buffer)
    (v : spec_float) (offset : number) : Result Buffer :=
  match checkBounds b offset (Z.of_nat (float_bytes F)) with
  | Throw e => Throw e
  | Ok o => Ok (overwrite b o (bytes_of_float F bigEndian v))
  end.

Definition readFloating (F : FloatLayout) (bigEndian : bool) (b : Buffer)
    (offset : number) : Result spec_float :=
  match checkBounds b offset (Z.of_nat (float_bytes F)) with
  | Throw e => Throw e
  | Ok o =>
      Ok (float_of_bytes F bigEndian
            (firstn (float_bytes F) (skipn (Z.to_nat o) b)))
  end.

(** The accessors of [Buffer.prototype] the class passes around. *)
Definition readInt8 := readInteger Int8.
Definition readInt16BE := readInteger Int16BE.
Definition readInt16LE := readInteger Int16LE.
Definition readInt32BE := readInteger Int32BE.
Definition readInt32LE := readInteger Int32LE.
Definition readBigInt64BE := readInteger BigInt64BE.
Definition readBigInt64LE := readInteger BigInt64LE.
Definition readUInt8 := readInteger UInt8.
Definition readUInt16BE := readInteger UInt16BE.
Definition readUInt16LE := readInteger UInt16LE.
Definition readUInt32BE := readInteger UInt32BE.
Definition readUInt32LE := readInteger UInt32LE.
Definition readBigUInt64BE := readInteger BigUInt64BE.
Definition readBigUInt64LE := readInteger BigUInt64LE.
Definition readFloatBE := readFloating binary32 true.
Definition readFloatLE := readFloating binary32 false.
Definition readDoubleBE := readFloating binary64 true.
Definition readDoubleLE := readFloating binary64 false.

Definition writeInt8 := writeInteger Int8.
Definition writeInt16BE := writeInteger Int16BE.
Definition writeInt16LE := writeInteger Int16LE.
Definition writeInt32BE := writeInteger Int32BE.
Definition writeInt32LE := writeInteger Int32LE.
Definition writeBigInt64BE := writeInteger BigInt64BE.
Definition writeBigInt64LE := writeInteger BigInt64LE.
Definition writeUInt8 := writeInteger UInt8.
Definition writeUInt16BE := writeInteger UInt16BE.
Definition writeUInt16LE := writeInteger UInt16LE.
Definition writeUInt32BE := writeInteger UInt32BE.
Definition writeUInt32LE := writeInteger UInt32LE.
Definition writeBigUInt64BE := writeInteger BigUInt64BE.
Definition writeBigUInt64LE := writeInteger BigUInt64LE.
Definition writeFloatBE := writeFloating binary32 true.
Definition writeFloatLE := writeFloating binary32 false.
Definition writeDoubleBE := writeFloating binary64 true.
Definition writeDoubleLE := writeFloating binary64 false.

End WithPlatform.
End Buffer.

(** ** The instance and the monad of its methods *)

(** The fields of class [SmartBuffer]. *)
Record SmartBuffer : Type := mkSmartBuffer {
  length : number;
  _encoding : string;
  _buff : Buffer;
  _writeOffset : number;
  _readOffset : number
}.

Definition with_length (v : number) (s : SmartBuffer) : SmartBuffer :=
  mkSmartBuffer v (_encoding s) (_buff s) (_writeOffset s) (_readOffset s).
Definition with_encoding (v : string) (s : SmartBuffer) : SmartBuffer :=
  mkSmartBuffer (length s) v (_buff s) (_writeOffset s) (_readOffset s).
Definition with_buff (v : Buffer) (s : SmartBuffer) : SmartBuffer :=
  mkSmartBuffer (length s) (_encoding s) v (_writeOffset s) (_readOffset s).
Definition with_writeOffset (v : number) (s : SmartBuffer) : SmartBuffer :=
  mkSmartBuffer (length s) (_encoding s) (_buff s) v (_readOffset s).
Definition with_readOffset (v : number) (s : SmartBuffer) : SmartBuffer :=
  mkSmartBuffer (length s) (_encoding s) (_buff s) (_writeOffset s) v.

(** A method call runs on the instance and ends with a result or an
    exception, and in both cases with the instance as the assignments
    made so far have left it. *)
Definition M (A : Type) : Type := SmartBuffer -> Result A * SmartBuffer.

Definition ret {A : Type} (a : A) : M A := fun s => (Ok a, s).

Definition bind {A B : Type} (m : M A) (k : A -> M B) : M B :=
  fun s =>
    match m s with
    | (Ok a, s') => k a s'
    | (Throw e, s') => (Throw e, s')
    end.

Definition throw {A : Type} (e : Error) : M A := fun s => (Throw e, s).

(** A call that touches no field. *)
Definition lift {A : Type} (r : Result A) : M A := fun s => (r, s).

(** Reading the fields, and an assignment to one. *)
Definition this : M SmartBuffer := fun s => (Ok s, s).
Definition assign (f : SmartBuffer -> SmartBuffer) : M unit :=
  fun s => (Ok tt, f s).

Declare Scope method_scope.
Delimit Scope method_scope with method.
Notation "x <- m ;; k" := (bind m (fun x => k))
  (at level 61, m at next level, right associativity) : method_scope.
Notation "m ;; k" := (bind m (fun _ => k))
  (at level 61, right associativity) : method_scope.
Local Open Scope method_scope.

(** ** utils.ts *)

Section WithPlatform.
Context {P : Platform}.

(** Truthiness of an argument. *)
Definition value_truthy (v : value) : bool :=
  match v with
  | undefined => false
  | Num n => truthy n
  | Str s => negb (String.eqb s EmptyString)
  end.

(** The number an argument stands for where the code uses it as one.
    It is applied only to arguments that a [typeof] test or
    [checkOffsetValue] has found to be numbers. *)
Definition ToNumber (v : value) : number :=
  match v with
  | Num n => n
  | _ => NaN
  end.

Definition checkEncoding (encoding : value) : Result unit :=
  match encoding with
  | Str e => if isEncoding e then Ok tt else Throw INVALID_ENCODING
  | _ => Throw INVALID_ENCODING
  end.

Definition isInteger (v : value) : bool :=
  match v with
  | Num n => isFinite n && neqb (Math_floor n) n
  | _ => false
  end.

Definition isFiniteInteger (v : value) : bool :=
  match v with
  | Num n => isFinite n && isInteger v
  | _ => false
  end.

Definition checkOffsetOrLengthValue (v : value) (offset : bool) : Result unit :=
  match v with
  | Num n =>
      if negb (isFiniteInteger v) || nlt n (Int 0)
      then Throw (if offset then INVALID_OFFSET else INVALID_LENGTH)
      else Ok tt
  | _ =>
      Throw (if offset then INVALID_OFFSET_NON_NUMBER
             else INVALID_LENGTH_NON_NUMBER)
  end.

Definition checkLengthValue (len : value) : Result unit :=
  checkOffsetOrLengthValue len false.

Definition checkOffsetValue (offset : value) : Result unit :=
  checkOffsetOrLengthValue offset true.

Definition checkTargetOffset (offset : number) (buff : SmartBuffer)
  : Result unit :=
  if nlt offset (Int 0) || ngt offset (length buff)
  then Throw INVALID_TARGET_OFFSET
  else Ok tt.

Definition bigIntAndBufferInt64Check (bufferMethod : string) : Result unit :=
  if negb hasBigInt then Throw PLATFORM_NO_BIGINT
  else if negb (hasBufferMethod bufferMethod)
  then Throw PLATFORM_NO_BUFFER_METHOD
  else Ok tt.

End WithPlatform.

(** ** mod.ts: class SmartBuffer *)

Section SmartBufferClass.
Context {P : Platform}.

Definition DEFAULT_SMARTBUFFER_SIZE : number := Int 4096.
Definition DEFAULT_SMARTBUFFER_ENCODING : string := "utf8".

(** What a caller may put in the [buff] option: a buffer or anything
    else. *)
Inductive AnyBuffer : Type :=
| ABuffer (b : Buffer)
| AValue (v : value).

(** The argument of the constructor: absent, [null], or an object with
    the three optional properties of [SmartBufferOptions]. *)
Inductive Options : Type :=
| NoOptions
| NullOptions
| Object (encoding : value) (size : value) (buff : AnyBuffer).

Definition is_defined (v : value) : bool :=
  match v with undefined => false | _ => true end.

Definition buff_defined (b : AnyBuffer) : bool :=
  match b with ABuffer _ => true | AValue v => is_defined v end.

Definition buff_truthy (b : AnyBuffer) : bool :=
  match b with ABuffer _ => true | AValue v => value_truthy v end.

Definition isSmartBufferOptions (options : Options) : bool :=
  match options with
  | Object encoding size buff =>
      is_defined encoding || is_defined size || buff_defined buff
  | _ => false
  end.

(** The text of an encoding argument that [checkEncoding] accepted. *)
Definition encoding_name (encoding : value) (otherwise : string) : string :=
  match encoding with
  | Str e => e
  | _ => otherwise
  end.

(** [encoding || otherwise] *)
Definition encoding_or (encoding : value) (otherwise : string) : string :=
  if value_truthy encoding then encoding_name encoding otherwise
  else otherwise.

(** The instance before the constructor body runs: the field
    initialisers, [_buff] not yet assigned. *)
Definition initial : SmartBuffer :=
  mkSmartBuffer (Int 0) DEFAULT_SMARTBUFFER_ENCODING [] (Int 0) (Int 0).

Definition constructor (options : Options) : M unit :=
  if isSmartBufferOptions options then
    match options with
    | Object encoding size buff =>
        (if value_truthy encoding then
           lift (checkEncoding encoding);;
           assign (with_encoding (encoding_name encoding ""))
         else ret tt);;
        if value_truthy size then
          if isFiniteInteger size && ngt (ToNumber size) (Int 0) then
            b <- lift (Buffer.allocUnsafe (ToNumber size));;
            assign (with_buff b)
          else throw INVALID_SMARTBUFFER_SIZE
        else if buff_truthy buff then
          match buff with
          | ABuffer b =>
              assign (with_buff b);;
              assign (with_length (Buffer.length b))
          | AValue _ => throw INVALID_SMARTBUFFER_BUFFER
          end
        else
          b <- lift (Buffer.allocUnsafe DEFAULT_SMARTBUFFER_SIZE);;
          assign (with_buff b)
    | _ => ret tt
    end
  else
    match options with
    | NoOptions =>
        b <- lift (Buffer.allocUnsafe DEFAULT_SMARTBUFFER_SIZE);;
        assign (with_buff b)
    | _ => throw INVALID_SMARTBUFFER_OBJECT
    end.

(** [new SmartBuffer(options)] *)
Definition new (options : Options) : Result SmartBuffer :=
  match constructor options initial with
  | (Ok _, s) => Ok s
  | (Throw e, _) => Throw e
  end.

Definition fromSize (size : value) (encoding : value) : Result SmartBuffer :=
  new (Object encoding size (AValue undefined)).

Definition fromBuffer (buff : AnyBuffer) (encoding : value)
  : Result SmartBuffer :=
  new (Object encoding undefined buff).

Definition fromOptions (options : Options) : Result SmartBuffer :=
  new options.

(** *** Capacity and bounds *)

Definition _ensureCapacity (minLength : number) : M unit :=
  s <- this;;
  let oldLength := Buffer.length (_buff s) in
  if ngt minLength oldLength then
    let data := _buff s in
    let newLength := nadd (ndiv (nmul oldLength (Int 3)) (Int 2)) (Int 1) in
    let newLength := if nlt newLength minLength then minLength else newLength in
    fresh <- lift (Buffer.allocUnsafe newLength);;
    assign (with_buff fresh);;
    copied <- lift (Buffer.copy data fresh (Int 0) (Some (Int 0)) (Some oldLength));;
    assign (with_buff copied)
  else ret tt.

Definition _ensureWriteable (dataLength : number) (offset : value) : M unit :=
  s <- this;;
  let offsetVal :=
    match offset with Num n => n | _ => _writeOffset s end in
  _ensureCapacity (nadd offsetVal dataLength);;
  s <- this;;
  if ngt (nadd offsetVal dataLength) (length s)
  then assign (with_length (nadd offsetVal dataLength))
  else ret tt.

Definition ensureInsertable (dataLength : number) (offset : value) : M unit :=
  lift (checkOffsetValue offset);;
  let offset := ToNumber offset in
  s <- this;;
  _ensureCapacity (nadd (length s) dataLength);;
  s <- this;;
  (if nlt offset (length s) then
     moved <- lift (Buffer.copy (_buff s) (_buff s) (nadd offset dataLength)
                      (Some offset) (Some (Buffer.length (_buff s))));;
     assign (with_buff moved)
   else ret tt);;
  s <- this;;
  if ngt (nadd offset dataLength) (length s)
  then assign (with_length (nadd offset dataLength))
  else assign (with_length (nadd (length s) dataLength)).

Definition ensureReadable (len : number) (offset : value) : M unit :=
  s <- this;;
  offsetVal <-
    match offset with
    | undefined => ret (_readOffset s)
    | _ => lift (checkOffsetValue offset);; ret (ToNumber offset)
    end;;
  s <- this;;
  if nlt offsetVal (Int 0) || ngt (nadd offsetVal len) (length s)
  then throw INVALID_READ_BEYOND_BOUNDS
  else ret tt.

(** *** The three generic numeric operations *)

Definition _readNumberValue {T : Type} (func : Buffer -> number -> Result T)
    (byteSize : number) (offset : value) : M T :=
  ensureReadable byteSize offset;;
  s <- this;;
  v <- lift (func (_buff s)
               (match offset with Num n => n | _ => _readOffset s end));;
  match offset with
  | undefined =>
      assign (fun s => with_readOffset (nadd (_readOffset s) byteSize) s);;
      ret v
  | _ => ret v
  end.

Definition _insertNumberValue {T : Type}
    (func : Buffer -> T -> number -> Result Buffer)
    (byteSize : number) (v : T) (offset : value) : M unit :=
  lift (checkOffsetValue offset);;
  ensureInsertable byteSize offset;;
  s <- this;;
  b <- lift (func (_buff s) v (ToNumber offset));;
  assign (with_buff b);;
  assign (fun s => with_writeOffset (nadd (_writeOffset s) byteSize) s).

Definition _writeNumberValue {T : Type}
    (func : Buffer -> T -> number -> Result Buffer)
    (byteSize : number) (v : T) (offset : value) : M unit :=
  match offset with
  | Num n =>
      if nlt n (Int 0) then throw INVALID_WRITE_BEYOND_BOUNDS
      else lift (checkOffsetValue offset)
  | _ => ret tt
  end;;
  s <- this;;
  let offsetVal :=
    match offset with Num n => n | _ => _writeOffset s end in
  _ensureWriteable byteSize (Num offsetVal);;
  s <- this;;
  b <- lift (func (_buff s) v offsetVal);;
  assign (with_buff b);;
  match offset with
  | Num _ =>
      assign (fun s =>
        with_writeOffset (Math_max (_writeOffset s) (nadd offsetVal byteSize)) s)
  | _ =>
      assign (fun s => with_writeOffset (nadd (_writeOffset s) byteSize) s)
  end.

(** *** Signed integers *)

Definition readInt8 (offset : value) : M Z :=
  _readNumberValue Buffer.readInt8 (Int 1) offset.
Definition readInt16BE (offset : value) : M Z :=
  _readNumberValue Buffer.readInt16BE (Int 2) offset.
Definition readInt16LE (offset : value) : M Z :=
  _readNumberValue Buffer.readInt16LE (Int 2) offset.
Definition readInt32BE (offset : value) : M Z :=
  _readNumberValue Buffer.readInt32BE (Int 4) offset.
Definition readInt32LE (offset : value) : M Z :=
  _readNumberValue Buffer.readInt32LE (Int 4) offset.
Definition readBigInt64BE (offset : value) : M Z :=
  lift (bigIntAndBufferInt64Check "readBigInt64BE");;
  _readNumberValue Buffer.readBigInt64BE (Int 8) offset.
Definition readBigInt64LE (offset : value) : M Z :=
  lift (bigIntAndBufferInt64Check "readBigInt64LE");;
  _readNumberValue Buffer.readBigInt64LE (Int 8) offset.

Definition writeInt8 (v : Z) (offset : value) : M unit :=
  _writeNumberValue Buffer.writeInt8 (Int 1) v offset.
Definition insertInt8 (v : Z) (offset : value) : M unit :=
  _insertNumberValue Buffer.writeInt8 (Int 1) v offset.
Definition writeInt16BE (v : Z) (offset : value) : M unit :=
  _writeNumberValue Buffer.writeInt16BE (Int 2) v offset.
Definition insertInt16BE (v : Z) (offset : value) : M unit :=
  _insertNumberValue Buffer.writeInt16BE (Int 2) v offset.
Definition writeInt16LE (v : Z) (offset : value) : M unit :=
  _writeNumberValue Buffer.writeInt16LE (Int 2) v offset.
Definition insertInt16LE (v : Z) (offset : value) : M unit :=
  _insertNumberValue Buffer.writeInt16LE (Int 2) v offset.
Definition writeInt32BE (v : Z) (offset : value) : M unit :=
  _writeNumberValue Buffer.writeInt32BE (Int 4) v offset.
Definition insertInt32BE (v : Z) (offset : value) : M unit :=
  _insertNumberValue Buffer.writeInt32BE (Int 4) v offset.
Definition writeInt32LE (v : Z) (offset : value) : M unit :=
  _writeNumberValue Buffer.writeInt32LE (Int 4) v offset.
Definition insertInt32LE (v : Z) (offset : value) : M unit :=
  _insertNumberValue Buffer.writeInt32LE (Int 4) v offset.
Definition writeBigInt64BE (v : Z) (offset : value) : M unit :=
  lift (bigIntAndBufferInt64Check "writeBigInt64BE");;
  _writeNumberValue Buffer.writeBigInt64BE (Int 8) v offset.
Definition insertBigInt64BE (v : Z) (offset : value) : M unit :=
  lift (bigIntAndBufferInt64Check "writeBigInt64BE");;
  _insertNumberValue Buffer.writeBigInt64BE (Int 8) v offset.
Definition writeBigInt64LE (v : Z) (offset : value) : M unit :=
  lift (bigIntAndBufferInt64Check "writeBigInt64LE");;
  _writeNumberValue Buffer.writeBigInt64LE (Int 8) v offset.
Definition insertBigInt64LE (v : Z) (offset : value) : M unit :=
  lift (bigIntAndBufferInt64Check "writeBigInt64LE");;
  _insertNumberValue Buffer.writeBigInt64LE (Int 8) v offset.

(** *** Unsigned integers *)

Definition readUInt8 (offset : value) : M Z :=
  _readNumberValue Buffer.readUInt8 (Int 1) offset.
Definition readUInt16BE (offset : value) : M Z :=
  _readNumberValue Buffer.readUInt16BE (Int 2) offset.
Definition readUInt16LE (offset : value) : M Z :=
  _readNumberValue Buffer.readUInt16LE (Int 2) offset.
Definition readUInt32BE (offset : value) : M Z :=
  _readNumberValue Buffer.readUInt32BE (Int 4) offset.
Definition readUInt32LE (offset : value) : M Z :=
  _readNumberValue Buffer.readUInt32LE (Int 4) offset.
Definition readBigUInt64BE (offset : value) : M Z :=
  lift (bigIntAndBufferInt64Check "readBigUInt64BE");;
  _readNumberValue Buffer.readBigUInt64BE (Int 8) offset.
Definition readBigUInt64LE (offset : value) : M Z :=
  lift (bigIntAndBufferInt64Check "readBigUInt64LE");;
  _readNumberValue Buffer.readBigUInt64LE (Int 8) offset.

Definition writeUInt8 (v : Z) (offset : value) : M unit :=
  _writeNumberValue Buffer.writeUInt8 (Int 1) v offset.
Definition insertUInt8 (v : Z) (offset : value) : M unit :=
  _insertNumberValue Buffer.writeUInt8 (Int 1) v offset.
Definition writeUInt16BE (v : Z) (offset : value) : M unit :=
  _writeNumberValue Buffer.writeUInt16BE (Int 2) v offset.
Definition insertUInt16BE (v : Z) (offset : value) : M unit :=
  _insertNumberValue Buffer.writeUInt16BE (Int 2) v offset.
Definition writeUInt16LE (v : Z) (offset : value) : M unit :=
  _writeNumberValue Buffer.writeUInt16LE (Int 2) v offset.
Definition insertUInt16LE (v : Z) (offset : value) : M unit :=
  _insertNumberValue Buffer.writeUInt16LE (Int 2) v offset.
Definition writeUInt32BE (v : Z) (offset : value) : M unit :=
  _writeNumberValue Buffer.writeUInt32BE (Int 4) v offset.
Definition insertUInt32BE (v : Z) (offset : value) : M unit :=
  _insertNumberValue Buffer.writeUInt32BE (Int 4) v offset.
Definition writeUInt32LE (v : Z) (offset : value) : M unit :=
  _writeNumberValue Buffer.writeUInt32LE (Int 4) v offset.
Definition insertUInt32LE (v : Z) (offset : value) : M unit :=
  _insertNumberValue Buffer.writeUInt32LE (Int 4) v offset.
Definition writeBigUInt64BE (v : Z) (offset : value) : M unit :=
  lift (bigIntAndBufferInt64Check "writeBigUInt64BE");;
  _writeNumberValue Buffer.writeBigUInt64BE (Int 8) v offset.
Definition insertBigUInt64BE (v : Z) (offset : value) : M unit :=
  lift (bigIntAndBufferInt64Check "writeBigUInt64BE");;
  _insertNumberValue Buffer.writeBigUInt64BE (Int 8) v offset.
Definition writeBigUInt64LE (v : Z) (offset : value) : M unit :=
  lift (bigIntAndBufferInt64Check "writeBigUInt64LE");;
  _writeNumberValue Buffer.writeBigUInt64LE (Int 8) v offset.
Definition insertBigUInt64LE (v : Z) (offset : value) : M unit :=
  lift (bigIntAndBufferInt64Check "writeBigUInt64LE");;
  _insertNumberValue Buffer.writeBigUInt64LE (Int 8) v offset.

(** *** Floating point *)

Definition readFloatBE (offset : value) : M spec_float :=
  _readNumberValue Buffer.readFloatBE (Int 4) offset.
Definition readFloatLE (offset : value) : M spec_float :=
  _readNumberValue Buffer.readFloatLE (Int 4) offset.
Definition writeFloatBE (v : spec_float) (offset : value) : M unit :=
  _writeNumberValue Buffer.writeFloatBE (Int 4) v offset.
Definition insertFloatBE (v : spec_float) (offset : value) : M unit :=
  _insertNumberValue Buffer.writeFloatBE (Int 4) v offset.
Definition writeFloatLE (v : spec_float) (offset : value) : M unit :=
  _writeNumberValue Buffer.writeFloatLE (Int 4) v offset.
Definition insertFloatLE (v : spec_float) (offset : value) : M unit :=
  _insertNumberValue Buffer.writeFloatLE (Int 4) v offset.

Definition readDoubleBE (offset : value) : M spec_float :=
  _readNumberValue Buffer.readDoubleBE (Int 8) offset.
Definition readDoubleLE (offset : value) : M spec_float :=
  _readNumberValue Buffer.readDoubleLE (Int 8) offset.
Definition writeDoubleBE (v : spec_float) (offset : value) : M unit :=
  _writeNumberValue Buffer.writeDoubleBE (Int 8) v offset.
Definition insertDoubleBE (v : spec_float) (offset : value) : M unit :=
  _insertNumberValue Buffer.writeDoubleBE (Int 8) v offset.
Definition writeDoubleLE (v : spec_float) (offset : value) : M unit :=
  _writeNumberValue Buffer.writeDoubleLE (Int 8) v offset.
Definition insertDoubleLE (v : spec_float) (offset : value) : M unit :=
  _insertNumberValue Buffer.writeDoubleLE (Int 8) v offset.

(** *** Strings and byte runs *)

Definition _handleString (v : string) (isInsert : bool)
    (arg3 encoding : value) : M unit :=
  s <- this;;
  let offsetVal := _writeOffset s in
  let encodingVal := _encoding s in
  oe <-
    match arg3 with
    | Num n => ret (n, encodingVal)
    | Str e => lift (checkEncoding arg3);; ret (offsetVal, e)
    | undefined => ret (offsetVal, encodingVal)
    end;;
  let offsetVal := fst oe in
  encodingVal <-
    match encoding with
    | Str e => lift (checkEncoding encoding);; ret e
    | _ => ret (snd oe)
    end;;
  let byteLength := Buffer.byteLength v encodingVal in
  (if isInsert then ensureInsertable byteLength (Num offsetVal)
   else _ensureWriteable byteLength (Num offsetVal));;
  s <- this;;
  b <- lift (Buffer.write (_buff s) v offsetVal byteLength encodingVal);;
  assign (with_buff b);;
  if isInsert then
    assign (fun s => with_writeOffset (nadd (_writeOffset s) byteLength) s)
  else
    match arg3 with
    | Num _ =>
        assign (fun s =>
          with_writeOffset
            (Math_max (_writeOffset s) (nadd offsetVal byteLength)) s)
    | _ =>
        assign (fun s => with_writeOffset (nadd (_writeOffset s) byteLength) s)
    end.

Definition _handleBuffer (v : Buffer) (isInsert : bool) (offset : value)
  : M unit :=
  s <- this;;
  let offsetVal :=
    match offset with Num n => n | _ => _writeOffset s end in
  (if isInsert then ensureInsertable (Buffer.length v) (Num offsetVal)
   else _ensureWriteable (Buffer.length v) (Num offsetVal));;
  s <- this;;
  b <- lift (Buffer.copy v (_buff s) offsetVal None None);;
  assign (with_buff b);;
  if isInsert then
    assign (fun s => with_writeOffset (nadd (_writeOffset s) (Buffer.length v)) s)
  else
    match offset with
    | Num _ =>
        assign (fun s =>
          with_writeOffset
            (Math_max (_writeOffset s) (nadd offsetVal (Buffer.length v))) s)
    | _ =>
        assign (fun s =>
          with_writeOffset (nadd (_writeOffset s) (Buffer.length v)) s)
    end.

Definition readString (arg1 encoding : value) : M string :=
  s <- this;;
  le <-
    match arg1 with
    | Num n =>
        lift (checkLengthValue arg1);;
        ret (Math_min n (nsub (length s) (_readOffset s)), encoding)
    | _ => ret (nsub (length s) (_readOffset s), arg1)
    end;;
  let lengthVal := fst le in
  let encoding := snd le in
  match encoding with
  | undefined => ret tt
  | _ => lift (checkEncoding encoding)
  end;;
  let v :=
    Buffer.toString
      (Buffer.slice (_buff s) (_readOffset s) (nadd (_readOffset s) lengthVal))
      (encoding_or encoding (_encoding s)) in
  assign (fun s => with_readOffset (nadd (_readOffset s) lengthVal) s);;
  ret v.

Definition insertString (v : string) (offset encoding : value) : M unit :=
  lift (checkOffsetValue offset);;
  _handleString v true offset encoding.

Definition writeString (v : string) (arg2 encoding : value) : M unit :=
  _handleString v false arg2 encoding.

(** The number of turns of [for (let i = from; i < to; i++)].  An
    infinite [to] would keep the loop running for ever; no method stores
    an infinite length, growth to an infinite size failing in
    [Buffer.allocUnsafe] before [length] is assigned. *)
Definition iterations (from to : number) : nat :=
  match nsub to from with
  | Fin d => Z.to_nat (Qceiling d)
  | _ => O
  end.

(** The scan of [readStringNT] and [readBufferNT]: the first index from
    [i] on, below [len], whose byte is zero, and [len] when there is
    none. *)
Fixpoint findNull (turns : nat) (buff : Buffer) (i len : number) : number :=
  match turns with
  | O => len
  | S turns' =>
      if nlt i len then
        match Buffer.index buff i with
        | Some b =>
            if Byte.eqb b Byte.x00 then i
            else findNull turns' buff (nadd i (Int 1)) len
        | None => findNull turns' buff (nadd i (Int 1)) len
        end
      else len
  end.

Definition readStringNT (encoding : value) : M string :=
  match encoding with
  | undefined => ret tt
  | _ => lift (checkEncoding encoding)
  end;;
  s <- this;;
  let nullPos :=
    findNull (iterations (_readOffset s) (length s)) (_buff s)
      (_readOffset s) (length s) in
  let v := Buffer.slice (_buff s) (_readOffset s) nullPos in
  assign (with_readOffset (nadd nullPos (Int 1)));;
  ret (Buffer.toString v (encoding_or encoding (_encoding s))).

Definition string_length (v : string) : number :=
  Int (Z.of_nat (String.length v)).

Definition readBuffer (len : value) : M Buffer :=
  match len with
  | undefined => ret tt
  | _ => lift (checkLengthValue len)
  end;;
  s <- this;;
  let lengthVal := match len with Num n => n | _ => length s end in
  let endPoint := Math_min (length s) (nadd (_readOffset s) lengthVal) in
  let v := Buffer.slice (_buff s) (_readOffset s) endPoint in
  assign (with_readOffset endPoint);;
  ret v.

Definition insertBuffer (v : Buffer) (offset : value) : M unit :=
  lift (checkOffsetValue offset);;
  _handleBuffer v true offset.

Definition writeBuffer (v : Buffer) (offset : value) : M unit :=
  _handleBuffer v false offset.

Definition readBufferNT : M Buffer :=
  s <- this;;
  let nullPos :=
    findNull (iterations (_readOffset s) (length s)) (_buff s)
      (_readOffset s) (length s) in
  let v := Buffer.slice (_buff s) (_readOffset s) nullPos in
  assign (with_readOffset (nadd nullPos (Int 1)));;
  ret v.

Definition insertStringNT (v : string) (offset encoding : value) : M unit :=
  lift (checkOffsetValue offset);;
  insertString v offset encoding;;
  insertUInt8 0 (Num (nadd (ToNumber offset) (string_length v))).

Definition writeStringNT (v : string) (arg2 encoding : value) : M unit :=
  writeString v arg2 encoding;;
  s <- this;;
  writeUInt8 0
    (match arg2 with
     | Num n => Num (nadd n (string_length v))
     | _ => Num (_writeOffset s)
     end).

Definition insertBufferNT (v : Buffer) (offset : value) : M unit :=
  lift (checkOffsetValue offset);;
  insertBuffer v offset;;
  insertUInt8 0 (Num (nadd (ToNumber offset) (Buffer.length v))).

Definition writeBufferNT (v : Buffer) (offset : value) : M unit :=
  match offset with
  | undefined => ret tt
  | _ => lift (checkOffsetValue offset)
  end;;
  writeBuffer v offset;;
  s <- this;;
  writeUInt8 0
    (match offset with
     | Num n => Num (nadd n (Buffer.length v))
     | _ => Num (_writeOffset s)
     end).

(** *** Cursors and the rest *)

Definition clear : M unit :=
  assign (with_writeOffset (Int 0));;
  assign (with_readOffset (Int 0));;
  assign (with_length (Int 0)).

Definition remaining : M number :=
  s <- this;;
  ret (nsub (length s) (_readOffset s)).

Definition get_readOffset : M number :=
  s <- this;;
  ret (_readOffset s).

Definition set_readOffset (offset : value) : M unit :=
  lift (checkOffsetValue offset);;
  s <- this;;
  lift (checkTargetOffset (ToNumber offset) s);;
  assign (with_readOffset (ToNumber offset)).

Definition get_writeOffset : M number :=
  s <- this;;
  ret (_writeOffset s).

Definition set_writeOffset (offset : value) : M unit :=
  lift (checkOffsetValue offset);;
  s <- this;;
  lift (checkTargetOffset (ToNumber offset) s);;
  assign (with_writeOffset (ToNumber offset)).

Definition get_encoding : M string :=
  s <- this;;
  ret (_encoding s).

Definition set_encoding (encoding : value) : M unit :=
  lift (checkEncoding encoding);;
  assign (with_encoding (encoding_name encoding "")).

Definition internalBuffer : M Buffer :=
  s <- this;;
  ret (_buff s).

Definition toBuffer : M Buffer :=
  s <- this;;
  ret (Buffer.slice (_buff s) (Int 0) (length s)).

Definition toString (encoding : value) : M string :=
  s <- this;;
  let encodingVal :=
    match encoding with Str e => e | _ => _encoding s end in
  lift (checkEncoding (Str encodingVal));;
  ret (Buffer.toString (Buffer.slice (_buff s) (Int 0) (length s)) encodingVal).

Definition destroy : M unit := clear.

End SmartBufferClass.

(** ** The data a write or an insert puts into the buffer *)

(** The fixed-width shapes of the class, by the names of its methods. *)
Inductive IntegerShape : Type :=
| Int8 | Int16BE | Int16LE | Int32BE | Int32LE | BigInt64BE | BigInt64LE
| UInt8 | UInt16BE | UInt16LE | UInt32BE | UInt32LE | BigUInt64BE | BigUInt64LE.

Inductive FloatShape : Type :=
| FloatBE | FloatLE | DoubleBE | DoubleLE.

Section Shapes.
Context {P : Platform}.

Definition writeInteger (sh : IntegerShape) : Z -> value -> M unit :=
  match sh with
  | Int8 => writeInt8 | Int16BE => writeInt16BE | Int16LE => writeInt16LE
  | Int32BE => writeInt32BE | Int32LE => writeInt32LE
  | BigInt64BE => writeBigInt64BE | BigInt64LE => writeBigInt64LE
  | UInt8 => writeUInt8 | UInt16BE => writeUInt16BE | UInt16LE => writeUInt16LE
  | UInt32BE => writeUInt32BE | UInt32LE => writeUInt32LE
  | BigUInt64BE => writeBigUInt64BE | BigUInt64LE => writeBigUInt64LE
  end.

Definition insertInteger (sh : IntegerShape) : Z -> value -> M unit :=
  match sh with
  | Int8 => insertInt8 | Int16BE => insertInt16BE | Int16LE => insertInt16LE
  | Int32BE => insertInt32BE | Int32LE => insertInt32LE
  | BigInt64BE => insertBigInt64BE | BigInt64LE => insertBigInt64LE
  | UInt8 => insertUInt8 | UInt16BE => insertUInt16BE | UInt16LE => insertUInt16LE
  | UInt32BE => insertUInt32BE | UInt32LE => insertUInt32LE
  | BigUInt64BE => insertBigUInt64BE | BigUInt64LE => insertBigUInt64LE
  end.

Definition readInteger (sh : IntegerShape) : value -> M Z :=
  match sh with
  | Int8 => readInt8 | Int16BE => readInt16BE | Int16LE => readInt16LE
  | Int32BE => readInt32BE | Int32LE => readInt32LE
  | BigInt64BE => readBigInt64BE | BigInt64LE => readBigInt64LE
  | UInt8 => readUInt8 | UInt16BE => readUInt16BE | UInt16LE => readUInt16LE
  | UInt32BE => readUInt32BE | UInt32LE => readUInt32LE
  | BigUInt64BE => readBigUInt64BE | BigUInt64LE => readBigUInt64LE
  end.

Definition writeFloat (sh : FloatShape) : spec_float -> value -> M unit :=
  match sh with
  | FloatBE => writeFloatBE | FloatLE => writeFloatLE
  | DoubleBE => writeDoubleBE | DoubleLE => writeDoubleLE
  end.

Definition insertFloat (sh : FloatShape) : spec_float -> value -> M unit :=
  match sh with
  | FloatBE => insertFloatBE | FloatLE => insertFloatLE
  | DoubleBE => insertDoubleBE | DoubleLE => insertDoubleLE
  end.

Definition readFloat (sh : FloatShape) : value -> M spec_float :=
  match sh with
  | FloatBE => readFloatBE | FloatLE => readFloatLE
  | DoubleBE => readDoubleBE | DoubleLE => readDoubleLE
  end.

(** The layout of each shape on the platform. *)
Definition layout (sh : IntegerShape) : Buffer.IntLayout :=
  match sh with
  | Int8 => Buffer.Int8 | Int16BE => Buffer.Int16BE | Int16LE => Buffer.Int16LE
  | Int32BE => Buffer.Int32BE | Int32LE => Buffer.Int32LE
  | BigInt64BE => Buffer.BigInt64BE | BigInt64LE => Buffer.BigInt64LE
  | UInt8 => Buffer.UInt8 | UInt16BE => Buffer.UInt16BE
  | UInt16LE => Buffer.UInt16LE
  | UInt32BE => Buffer.UInt32BE | UInt32LE => Buffer.UInt32LE
  | BigUInt64BE => Buffer.BigUInt64BE | BigUInt64LE => Buffer.BigUInt64LE
  end.

Definition format (sh : FloatShape) : Buffer.FloatLayout :=
  match sh with
  | FloatBE | FloatLE => Buffer.binary32
  | DoubleBE | DoubleLE => Buffer.binary64
  end.

Definition bigEndian (sh : FloatShape) : bool :=
  match sh with
  | FloatBE | DoubleBE => true
  | FloatLE | DoubleLE => false
  end.

(** The names under which the 64-bit methods look their accessors up;
    the insert methods look up the write accessor. *)
Definition accessor (sh : IntegerShape) (reading : bool) : option string :=
  match sh, reading with
  | BigInt64BE, true => Some "readBigInt64BE"
  | BigInt64BE, false => Some "writeBigInt64BE"
  | BigInt64LE, true => Some "readBigInt64LE"
  | BigInt64LE, false => Some "writeBigInt64LE"
  | BigUInt64BE, true => Some "readBigUInt64BE"
  | BigUInt64BE, false => Some "writeBigUInt64BE"
  | BigUInt64LE, true => Some "readBigUInt64LE"
  | BigUInt64LE, false => Some "writeBigUInt64LE"
  | _, _ => None
  end%string.

(** The platform supports the shape: BigInt and the accessor exist when
    the shape is a 64-bit one. *)
Definition supported (sh : IntegerShape) (reading : bool) : bool :=
  match accessor sh reading with
  | Some name => hasBigInt && hasBufferMethod name
  | None => true
  end.

(** A value the shape represents. *)
Definition representable (sh : IntegerShape) (v : Z) : Prop :=
  Buffer.minValue (layout sh) <= v <= Buffer.maxValue (layout sh).

Definition float_representable (sh : FloatShape) (v : spec_float) : Prop :=
  valid_binary (Buffer.float_prec (format sh)) (Buffer.float_emax (format sh)) v
  = true.

(** What an insert or a write is given to put into the buffer. *)
Inductive Data : Type :=
| AnInteger (sh : IntegerShape) (v : Z)
| AFloat (sh : FloatShape) (v : spec_float)
| ABufferOf (v : Buffer)
| AString (v : string) (encoding : value).

Definition insert (d : Data) (offset : value) : M unit :=
  match d with
  | AnInteger sh v => insertInteger sh v offset
  | AFloat sh v => insertFloat sh v offset
  | ABufferOf v => insertBuffer v offset
  | AString v encoding => insertString v offset encoding
  end.

Definition write (d : Data) (offset : value) : M unit :=
  match d with
  | AnInteger sh v => writeInteger sh v offset
  | AFloat sh v => writeFloat sh v offset
  | ABufferOf v => writeBuffer v offset
  | AString v encoding => writeString v offset encoding
  end.

(** The bytes of the data, for the instance they go to (a string is
    encoded with the encoding of the call or else of the instance). *)
Definition payload (d : Data) (s : SmartBuffer) : list byte :=
  match d with
  | AnInteger sh v => Buffer.bytes_of_int (layout sh) v
  | AFloat sh v => Buffer.bytes_of_float (format sh) (bigEndian sh) v
  | ABufferOf v => v
  | AString v encoding =>
      encodeText (encoding_name encoding (_encoding s)) v
  end.

(** An encoding argument a string method goes through with: a known
    name, or no name at all, in which case the encoding of the instance
    is used. *)
Definition encoding_accepted (encoding : value) : Prop :=
  match encoding with
  | Str e => isEncoding e = true
  | _ => True
  end.

(** The data are ones the method takes: a value of the shape on a
    platform that supports it, any buffer, a string with an accepted
    encoding argument. *)
Definition acceptable (d : Data) : Prop :=
  match d with
  | AnInteger sh v => representable sh v /\ supported sh false = true
  | AFloat sh v => float_representable sh v
  | ABufferOf v => True
  | AString v encoding => encoding_accepted encoding
  end.

End Shapes.

(** ** A platform to run the methods on

    Fresh memory is filled with [0xaa]; text is one byte per character,
    which is what utf8, ascii and latin1 do on 7-bit text; BigInt and
    all accessors exist. *)
Definition sample_encodings : list string :=
  ["ascii"; "utf8"; "utf-8"; "utf16le"; "ucs2"; "ucs-2"; "base64";
   "latin1"; "binary"; "hex"]%string.

Definition sample : Platform := {|
  unsafe_byte := fun _ => Byte.xaa;
  isEncoding := fun e => existsb (String.eqb e) sample_encodings;
  encodeText := fun _ s => list_byte_of_string s;
  decodeText := fun _ b => string_of_list_byte b;
  hasBigInt := true;
  hasBufferMethod := fun _ => true
|}.

(** An instance wrapping the given bytes, as [fromBuffer] makes it. *)
Definition wrapping (b : Buffer) : SmartBuffer :=
  mkSmartBuffer (Buffer.length b) DEFAULT_SMARTBUFFER_ENCODING b (Int 0) (Int 0).

(** ** The vocabulary of the statements *)

Section Vocabulary.
Context {P : Platform}.

(** The size the growth step gives a store of capacity [C] asked for a
    minimum length [m] above [C]. *)
Definition grown_size (C m : Z) : Z := Z.max m (C * 3 / 2 + 1).

(** The store after the growth step for a minimum length [m]: the old
    store, followed by fresh memory up to the grown size when [m] is
    above the capacity. *)
Definition grow (b : Buffer) (m : Z) : Buffer :=
  if Buffer.size b <? m then
    b ++ map unsafe_byte
           (seq (List.length b)
              (Z.to_nat (grown_size (Buffer.size b) m) - List.length b))
  else b.

(** The store after the shift of an insert of [k] bytes at [o]: the
    bytes from [o] on moved [k] places up, as far as the store reaches. *)
Definition shifted (g : Buffer) (o k : Z) : Buffer :=
  Buffer.overwrite g (o + k)
    (firstn (Z.to_nat (Buffer.size g - o - k)) (skipn (Z.to_nat o) g)).

(** The store an insert of [k] bytes at [o] writes its data into, for a
    logical length [L]: grown for [L + k], and shifted when [o] is below
    [L]. *)
Definition opened (b : Buffer) (L o k : Z) : Buffer :=
  if o <? L then shifted (grow b (L + k)) o k else grow b (L + k).

(** An accessor of the platform that lays [bytes] down for [v], and one
    that reads [n] bytes back through [dec]. *)
Definition stores {T : Type} (func : Buffer -> T -> number -> Result Buffer)
    (v : T) (bytes : list byte) : Prop :=
  forall (b : Buffer) (o : Z),
    0 <= o -> o + Buffer.size bytes <= Buffer.size b ->
    func b v (Int o) = Ok (Buffer.overwrite b o bytes).

Definition loads {T : Type} (func : Buffer -> number -> Result T)
    (n : nat) (dec : list byte -> T) : Prop :=
  forall (b : Buffer) (o : Z),
    0 <= o -> o + Z.of_nat n <= Buffer.size b ->
    func b (Int o) = Ok (dec (firstn n (skipn (Z.to_nat o) b))).

(** The live bytes of an instance: what [toBuffer] returns. *)
Definition live (s : SmartBuffer) : Buffer :=
  Buffer.slice (_buff s) (Int 0) (length s).

(** The invariant of the data model: whole cursors within the logical
    length, and the logical length within the capacity. *)
Definition invariant (s : SmartBuffer) : Prop :=
  exists L w r : Z,
    length s = Int L /\ _writeOffset s = Int w /\ _readOffset s = Int r /\
    0 <= r <= L /\ 0 <= w <= L /\ L <= Buffer.size (_buff s).

End Vocabulary.

(** ** The properties the specification states of an operation *)

Section Statements.
Context {P : Platform}.

(** Insertion correctness, between the instance before and after an
    insert of [k] bytes at [o]: the logical length grows by [k], the live
    bytes before [o] are unchanged, the live bytes from [o + k] on are
    the former live bytes from [o] on, and the write cursor advances by
    [k]. *)
Definition inserted (s s' : SmartBuffer) (o k : Z) : Prop :=
  length s' = nadd (length s) (Int k) /\
  firstn (Z.to_nat o) (live s') = firstn (Z.to_nat o) (live s) /\
  skipn (Z.to_nat (o + k)) (live s') = skipn (Z.to_nat o) (live s) /\
  _writeOffset s' = nadd (_writeOffset s) (Int k).

(** The insert of [d] at [o] into [s] goes through and is correct. *)
Definition insertion_correct (s : SmartBuffer) (d : Data) (o : Z) : Prop :=
  exists s' : SmartBuffer,
    insert d (Num (Int o)) s = (Ok tt, s') /\
    inserted s s' o (Buffer.size (payload d s)).

(** The cursor invariant alone. *)
Definition cursors_within (s : SmartBuffer) : Prop :=
  exists L w r : Z,
    length s = Int L /\ _writeOffset s = Int w /\ _readOffset s = Int r /\
    0 <= r <= L /\ 0 <= w <= L.

(** An encoding argument a read goes through with: none, or a known
    name. *)
Definition encoding_checked (encoding : value) : Prop :=
  match encoding with
  | undefined => True
  | Str e => isEncoding e = true
  | Num _ => False
  end.

End Statements.

(** ** Further vocabulary *)

(** An argument that is a number, finite, whole and not negative. *)
Definition whole_and_not_negative (v : value) : Prop :=
  exists q : Q,
    v = Num (Fin q) /\ (inject_Z (Qfloor q) == q)%Q /\ 0 <= Qfloor q.

(** The store after data and a zero byte have been laid down at [w]. *)
Definition terminated_at (b : Buffer) (w : Z) (v : list byte) : Prop :=
  w + Buffer.size v + 1 <= Buffer.size b /\
  nth_error b (Z.to_nat (w + Buffer.size v)) = Some Byte.x00 /\
  forall i : nat, (i < List.length v)%nat ->
    nth_error b (Z.to_nat w + i) = nth_error v i.

(** The sample platform on a runtime without BigInt. *)
Definition without_bigint : Platform := {|
  unsafe_byte := unsafe_byte (Platform := sample);
  isEncoding := isEncoding (Platform := sample);
  encodeText := encodeText (Platform := sample);
  decodeText := decodeText (Platform := sample);
  hasBigInt := false;
  hasBufferMethod := hasBufferMethod (Platform := sample)
|}.

(** ** Sample instances *)

(** Two live bytes in a store of eight. *)
Definition two_of_eight : SmartBuffer :=
  mkSmartBuffer (Int 2) "utf8"
    [Byte.x01; Byte.x02; Byte.xaa; Byte.xaa; Byte.xaa; Byte.xaa; Byte.xaa;
     Byte.xaa]
    (Int 2) (Int 0).

(** Five live bytes in a store of eight, the write cursor at the end. *)
Definition five_of_eight : SmartBuffer :=
  mkSmartBuffer (Int 5) "utf8"
    [Byte.x01; Byte.x02; Byte.x03; Byte.x04; Byte.x05; Byte.xaa; Byte.xaa;
     Byte.xaa]
    (Int 5) (Int 0).

(** An empty instance on a store of four bytes, as [fromSize(4)] makes. *)
Definition empty_of_four : SmartBuffer :=
  mkSmartBuffer (Int 0) "utf8" [Byte.xaa; Byte.xaa; Byte.xaa; Byte.xaa]
    (Int 0) (Int 0).

(** The single byte of "c", with no terminator. *)
Definition only_c : SmartBuffer := wrapping [Byte.x63].

(** The bytes of "ab", a terminator, and "c". *)
Definition ab_nul_c : SmartBuffer :=
  wrapping [Byte.x61; Byte.x62; Byte.x00; Byte.x63].

(** * Properties *)

(** ** Numbers that are integers *)

Lemma Qle_bool_inject_Z (a b : Z) :
  Qle_bool (inject_Z a) (inject_Z b) = (a <=? b).
Proof.
  unfold Qle_bool, inject_Z. cbn [Qnum Qden].
  now rewrite !Z.mul_1_r.
Qed.

Lemma Qltb_inject_Z (a b : Z) : Qltb (inject_Z a) (inject_Z b) = (a <? b).
Proof.
  unfold Qltb. rewrite Qle_bool_inject_Z.
  destruct (Z.leb_spec b a), (Z.ltb_spec a b); simpl; try reflexivity; lia.
Qed.

Lemma Qeq_bool_inject_Z (a b : Z) :
  Qeq_bool (inject_Z a) (inject_Z b) = (a =? b).
Proof.
  destruct (Z.eqb_spec a b) as [->|Hne].
  - apply Qeq_bool_iff. reflexivity.
  - destruct (Qeq_bool (inject_Z a) (inject_Z b)) eqn:E; [|reflexivity].
    apply Qeq_bool_iff in E. unfold Qeq, inject_Z in E. cbn [Qnum Qden] in E.
    rewrite !Z.mul_1_r in E. contradiction.
Qed.

Lemma nadd_Int (a b : Z) : nadd (Int a) (Int b) = Int (a + b).
Proof.
  unfold Int, nadd, inject_Z, Qplus. cbn [Qnum Qden].
  now rewrite !Z.mul_1_r.
Qed.

Lemma nsub_Int (a b : Z) : nsub (Int a) (Int b) = Int (a - b).
Proof.
  unfold nsub, Int, nneg, nadd, inject_Z, Qplus, Qopp. cbn [Qnum Qden].
  rewrite !Z.mul_1_r. reflexivity.
Qed.

Lemma nlt_Int (a b : Z) : nlt (Int a) (Int b) = (a <? b).
Proof. apply Qltb_inject_Z. Qed.

Lemma ngt_Int (a b : Z) : ngt (Int a) (Int b) = (b <? a).
Proof. apply Qltb_inject_Z. Qed.

Lemma Math_min_Int (a b : Z) : Math_min (Int a) (Int b) = Int (Z.min a b).
Proof.
  unfold Math_min. cbn [is_nan Int orb]. fold (Int a) (Int b).
  rewrite nlt_Int. destruct (Z.ltb_spec b a); f_equal; lia.
Qed.

Lemma Math_max_Int (a b : Z) : Math_max (Int a) (Int b) = Int (Z.max a b).
Proof.
  unfold Math_max. cbn [is_nan Int orb]. fold (Int a) (Int b).
  rewrite nlt_Int. destruct (Z.ltb_spec a b); f_equal; lia.
Qed.

Lemma integer_value_Int (z : Z) : integer_value (Int z) = Some z.
Proof.
  unfold integer_value, Int. rewrite Qfloor_Z, Qeq_bool_inject_Z, Z.eqb_refl.
  reflexivity.
Qed.

Lemma Int_inj (a b : Z) : Int a = Int b -> a = b.
Proof. unfold Int, inject_Z. congruence. Qed.

Lemma isFiniteInteger_Int (z : Z) : isFiniteInteger (Num (Int z)) = true.
Proof.
  unfold isFiniteInteger, isInteger, Math_floor, Int, isFinite, neqb.
  rewrite Qfloor_Z. fold (Int z). unfold Int.
  rewrite Qeq_bool_inject_Z, Z.eqb_refl. reflexivity.
Qed.

Lemma checkOffsetValue_Int (z : Z) :
  checkOffsetValue (Num (Int z)) = if z <? 0 then Throw INVALID_OFFSET else Ok tt.
Proof.
  unfold checkOffsetValue, checkOffsetOrLengthValue.
  rewrite isFiniteInteger_Int, nlt_Int. reflexivity.
Qed.

Lemma checkLengthValue_Int (z : Z) :
  checkLengthValue (Num (Int z)) = if z <? 0 then Throw INVALID_LENGTH else Ok tt.
Proof.
  unfold checkLengthValue, checkOffsetOrLengthValue.
  rewrite isFiniteInteger_Int, nlt_Int. reflexivity.
Qed.

(** What [checkOffsetValue] lets through: the numbers that are finite,
    whole and not negative, and nothing else. *)
Lemma checkOffsetValue_Ok (v : value) :
  checkOffsetValue v = Ok tt <->
  exists q, v = Num (Fin q) /\ (inject_Z (Qfloor q) == q)%Q /\ 0 <= Qfloor q.
Proof.
  unfold checkOffsetValue, checkOffsetOrLengthValue.
  destruct v as [|[q| | |]|]; simpl;
    try (split; [discriminate | intros (q' & E & _); discriminate]).
  unfold Qltb.
  destruct (Qeq_bool (inject_Z (Qfloor q)) q) eqn:E; simpl.
  - apply Qeq_bool_iff in E.
    destruct (Qle_bool (inject_Z 0) q) eqn:L; simpl.
    + split; [|reflexivity]. intros _. exists q. repeat split; trivial.
      apply Qle_bool_iff in L. rewrite <- E in L.
      now rewrite Zle_Qle.
    + split; [discriminate|]. intros (q' & E' & _ & Hq). injection E' as <-.
      assert (Qle_bool (inject_Z 0) q = true); [|congruence].
      apply Qle_bool_iff. rewrite <- E. now rewrite <- Zle_Qle.
  - split; [discriminate|]. intros (q' & E' & Hq & _). injection E' as <-.
    apply Qeq_bool_iff in Hq. congruence.
Qed.

Create Rewrite HintDb jsnum.
#[local] Hint Rewrite nadd_Int nsub_Int nlt_Int ngt_Int Math_min_Int Math_max_Int
  integer_value_Int checkOffsetValue_Int checkLengthValue_Int : jsnum.

(** ** The platform's buffer on integer arguments *)

Ltac run := unfold bind, this, lift, assign, ret, throw.

Ltac fields :=
  cbn [length _buff _encoding _writeOffset _readOffset
       with_length with_buff with_encoding with_writeOffset with_readOffset].

Section BufferFacts.
Context {P : Platform}.

Lemma size_nonneg (b : Buffer) : 0 <= Buffer.size b.
Proof. unfold Buffer.size. lia. Qed.

Lemma size_app (a b : Buffer) : Buffer.size (a ++ b) = Buffer.size a + Buffer.size b.
Proof. unfold Buffer.size. rewrite length_app. lia. Qed.

Lemma allocUnsafe_Int (n : Z) :
  0 <= n ->
  Buffer.allocUnsafe (Int n) = Ok (map unsafe_byte (seq 0 (Z.to_nat n))).
Proof.
  intros Hn. unfold Buffer.allocUnsafe, Int.
  change 0%Q with (inject_Z 0). rewrite Qle_bool_inject_Z, Qfloor_Z.
  destruct (Z.leb_spec 0 n); [reflexivity | lia].
Qed.

Lemma three_halves_plus_one (C : Z) :
  nadd (ndiv (nmul (Int C) (Int 3)) (Int 2)) (Int 1) = Fin (C * 3 + 2 # 2).
Proof.
  unfold Int, nmul, ndiv, nadd. cbn. f_equal.
  unfold Qdiv, Qmult, Qplus, Qinv, inject_Z. cbn. f_equal. lia.
Qed.

Lemma growth_request (C m : Z) :
  0 <= C -> C < m ->
  let newLength := nadd (ndiv (nmul (Int C) (Int 3)) (Int 2)) (Int 1) in
  Buffer.allocUnsafe (if nlt newLength (Int m) then Int m else newLength)
  = Ok (map unsafe_byte (seq 0 (Z.to_nat (grown_size C m)))).
Proof.
  intros HC Hm. cbv zeta. rewrite three_halves_plus_one. unfold grown_size.
  assert (D : (C * 3 + 2) / 2 = C * 3 / 2 + 1)
    by (apply (Z.div_add (C * 3) 1 2); lia).
  unfold nlt, Int, Qltb, Qle_bool, inject_Z. cbn [Qnum Qden].
  rewrite Z.mul_1_r.
  destruct (Z.leb_spec (m * 2) (C * 3 + 2)) as [Hle|Hgt]; cbn [negb].
  - unfold Buffer.allocUnsafe, Qle_bool, Qfloor. cbn [Qnum Qden].
    rewrite D, Z.max_r by (rewrite <- D; apply Z.div_le_lower_bound; lia).
    destruct (Z.leb_spec (0 * 2) ((C * 3 + 2) * 1)); [reflexivity | lia].
  - fold (inject_Z m). fold (Int m). rewrite allocUnsafe_Int by lia.
    rewrite Z.max_l; [reflexivity|].
    rewrite <- D. assert ((C * 3 + 2) / 2 < m); [|lia].
    apply Z.div_lt_upper_bound; lia.
Qed.


Lemma skipn_seq (n a len : nat) : skipn n (seq a len) = seq (a + n) (len - n).
Proof.
  revert a len. induction n as [|n IH]; intros a len; simpl.
  - now rewrite Nat.add_0_r, Nat.sub_0_r.
  - destruct len; simpl; [reflexivity|]. rewrite IH. f_equal. lia.
Qed.

Lemma grown_size_bounds (C m : Z) : 0 <= C -> C < m -> m <= grown_size C m /\ C < grown_size C m.
Proof. unfold grown_size. lia. Qed.

Lemma size_grow (b : Buffer) (m : Z) :
  Buffer.size (grow b m) = if Buffer.size b <? m then grown_size (Buffer.size b) m else Buffer.size b.
Proof.
  unfold grow. destruct (Z.ltb_spec (Buffer.size b) m); [|reflexivity].
  pose proof (grown_size_bounds (Buffer.size b) m (size_nonneg b) H).
  unfold Buffer.size in *. rewrite length_app, length_map, length_seq. lia.
Qed.

Lemma size_grow_ge (b : Buffer) (m : Z) :
  m <= Buffer.size (grow b m) /\ Buffer.size b <= Buffer.size (grow b m).
Proof.
  rewrite size_grow. destruct (Z.ltb_spec (Buffer.size b) m); [|lia].
  pose proof (grown_size_bounds (Buffer.size b) m (size_nonneg b) H). lia.
Qed.

Lemma grow_prefix (b : Buffer) (m : Z) :
  firstn (List.length b) (grow b m) = b.
Proof.
  unfold grow. destruct (Buffer.size b <? m).
  - rewrite firstn_app, Nat.sub_diag, firstn_all. simpl. now rewrite app_nil_r.
  - apply firstn_all.
Qed.

Lemma copy_Int (src tgt : Buffer) (ts ss se : Z) :
  0 <= ts < Buffer.size tgt -> 0 <= ss < se -> ss <= Buffer.size src ->
  Buffer.copy src tgt (Int ts) (Some (Int ss)) (Some (Int se))
  = Ok (Buffer.overwrite tgt ts
          (firstn (Z.to_nat (Z.min (Z.min (se - ss) (Buffer.size tgt - ts))
                                   (Buffer.size src - ss)))
             (skipn (Z.to_nat ss) src))).
Proof.
  intros Ht Hs Hsrc. unfold Buffer.copy, Buffer.toInteger, Int.
  rewrite !Qfloor_Z.
  destruct (Z.ltb_spec ts 0); [lia|].
  destruct (Z.ltb_spec ss 0); [lia|].
  destruct (Z.ltb_spec (Buffer.size src) ss); [lia|].
  destruct (Z.ltb_spec se 0); [lia|].
  destruct (Z.leb_spec (Buffer.size tgt) ts); [lia|].
  destruct (Z.leb_spec se ss); [lia|]. reflexivity.
Qed.

(** A two-argument copy: the whole of [src] laid over [tgt] at [ts], cut
    at the end of [tgt]. *)
Lemma copy_whole_Int (src tgt : Buffer) (ts : Z) :
  0 <= ts ->
  Buffer.copy src tgt (Int ts) None None
  = Ok (if (Buffer.size tgt <=? ts) || (Buffer.size src <=? 0) then tgt
        else Buffer.overwrite tgt ts
               (firstn (Z.to_nat (Buffer.size tgt - ts)) src)).
Proof.
  intros Ht. unfold Buffer.copy, Buffer.toInteger, Int. rewrite Qfloor_Z.
  pose proof (size_nonneg src).
  destruct (Z.ltb_spec ts 0); [lia|].
  destruct (Z.ltb_spec (Buffer.size src) 0); [lia|]. cbn [orb Z.ltb Z.compare].
  destruct ((Buffer.size tgt <=? ts) || (Buffer.size src <=? 0)); [reflexivity|].
  f_equal. f_equal. cbn [Z.to_nat skipn]. rewrite Z.sub_0_r.
  destruct (Z.min_spec (Buffer.size src) (Buffer.size tgt - ts)) as [[? ->]|[? ->]].
  - rewrite Z.min_id. 
    rewrite !firstn_all2; trivial; unfold Buffer.size in *; lia.
  - rewrite Z.min_l by lia. reflexivity.
Qed.

Lemma ensureCapacity_Int (m : Z) (s : SmartBuffer) :
  _ensureCapacity (Int m) s = (Ok tt, with_buff (grow (_buff s) m) s).
Proof.
  unfold _ensureCapacity, grow. run. unfold Buffer.length at 1.
  rewrite ngt_Int.
  destruct (Z.ltb_spec (Buffer.size (_buff s)) m) as [Hlt|Hge].
  - pose proof (size_nonneg (_buff s)) as H0.
    unfold Buffer.length.
    rewrite (growth_request _ _ H0 Hlt).
    pose proof (grown_size_bounds _ _ H0 Hlt) as [_ HC].
    cbn [_buff with_buff].
    destruct (Z.eq_dec (Buffer.size (_buff s)) 0) as [E0|N0].
    + unfold Buffer.copy, Buffer.toInteger, Int. rewrite !Qfloor_Z, E0. cbn.
      destruct (Z.leb_spec (Buffer.size (map unsafe_byte (seq 0 (Z.to_nat (grown_size 0 m))))) 0);
        cbn [orb]; rewrite ?Bool.orb_true_r.
      * unfold with_buff; cbn. do 2 f_equal.
        assert (_buff s = []) as -> by (destruct (_buff s); [reflexivity|discriminate]).
        now rewrite Nat.sub_0_r.
      * unfold with_buff; cbn. do 2 f_equal.
        assert (_buff s = []) as -> by (destruct (_buff s); [reflexivity|discriminate]).
        now rewrite Nat.sub_0_r.
    + rewrite copy_Int.
      * unfold with_buff; cbn. do 2 f_equal.
        unfold Buffer.overwrite. cbn [Z.to_nat firstn skipn app].
        assert (Buffer.size (map unsafe_byte (seq 0 (Z.to_nat (grown_size (Buffer.size (_buff s)) m)))) = grown_size (Buffer.size (_buff s)) m) as ->.
        { unfold Buffer.size at 1. rewrite length_map, length_seq. lia. }
        rewrite !Z.sub_0_r, (Z.min_l (Buffer.size (_buff s))), Z.min_id by lia.
        rewrite firstn_all2 by (unfold Buffer.size; lia).
        f_equal. rewrite skipn_map, skipn_seq. reflexivity.
      * unfold Buffer.size at 1. rewrite length_map, length_seq. lia.
      * lia.
      * lia.
  - destruct s; reflexivity.
Qed.

End BufferFacts.


Section ListFacts.

Lemma overwrite_length (b : Buffer) (o : Z) (bs : list byte) :
  0 <= o -> o + Buffer.size bs <= Buffer.size b ->
  Buffer.size (Buffer.overwrite b o bs) = Buffer.size b.
Proof.
  unfold Buffer.overwrite, Buffer.size. intros Ho Hb.
  rewrite !length_app, length_firstn, length_skipn. lia.
Qed.

Lemma overwrite_read (b : Buffer) (o : Z) (bs : list byte) :
  0 <= o -> o + Buffer.size bs <= Buffer.size b ->
  firstn (List.length bs) (skipn (Z.to_nat o) (Buffer.overwrite b o bs)) = bs.
Proof.
  unfold Buffer.overwrite, Buffer.size. intros Ho Hb.
  rewrite skipn_app, length_firstn.
  rewrite skipn_all2 by (rewrite length_firstn; lia).
  replace (Z.to_nat o - Nat.min (Z.to_nat o) (List.length b))%nat with 0%nat by lia.
  cbn [skipn app]. rewrite firstn_app, Nat.sub_diag, firstn_all. cbn [firstn].
  now rewrite app_nil_r.
Qed.

Lemma overwrite_prefix (b : Buffer) (o : Z) (bs : list byte) (n : nat) :
  0 <= o -> (n <= Z.to_nat o)%nat -> o <= Buffer.size b ->
  firstn n (Buffer.overwrite b o bs) = firstn n b.
Proof.
  unfold Buffer.overwrite, Buffer.size. intros Ho Hn Hb.
  rewrite firstn_app, length_firstn.
  replace (n - Nat.min (Z.to_nat o) (List.length b))%nat with 0%nat by lia.
  cbn [firstn]. rewrite app_nil_r, firstn_firstn. f_equal. lia.
Qed.

End ListFacts.

Section Engine.
Context {P : Platform}.

Lemma ensureWriteable_Int (k o L : Z) e b W R :
  _ensureWriteable (Int k) (Num (Int o)) (mkSmartBuffer (Int L) e b W R)
  = (Ok tt, mkSmartBuffer (Int (Z.max L (o + k))) e (grow b (o + k)) W R).
Proof.
  unfold _ensureWriteable. run. rewrite nadd_Int, ensureCapacity_Int.
  cbn [length with_buff _buff _encoding _writeOffset _readOffset with_length].
  rewrite ngt_Int. destruct (Z.ltb_spec L (o + k)); cbn.
  - now rewrite Z.max_r by lia.
  - now rewrite Z.max_l by lia.
Qed.

Lemma ensureInsertable_Int (k o L : Z) e b W R :
  0 <= o -> 0 <= k -> L <= Buffer.size b ->
  ensureInsertable (Int k) (Num (Int o)) (mkSmartBuffer (Int L) e b W R)
  = (Ok tt,
     mkSmartBuffer (Int (if L <? o + k then o + k else L + k)) e
       (opened b L o k) W R).
Proof.
  intros Ho Hk HL. unfold ensureInsertable, opened. run.
  rewrite checkOffsetValue_Int. destruct (Z.ltb_spec o 0); [lia|].
  cbn [length ToNumber]. rewrite nadd_Int, ensureCapacity_Int.
  cbn [length with_buff _buff _encoding _writeOffset _readOffset with_length].
  rewrite nlt_Int, !nadd_Int.
  pose proof (size_grow_ge b (L + k)) as [Hg1 Hg2].
  destruct (Z.ltb_spec o L) as [HoL|HoL].
  - unfold Buffer.length. rewrite copy_Int by lia.
    cbn [length with_buff _buff _encoding _writeOffset _readOffset with_length].
    rewrite ngt_Int. unfold shifted.
    replace (Z.min (Z.min (Buffer.size (grow b (L + k)) - o)
                      (Buffer.size (grow b (L + k)) - (o + k)))
               (Buffer.size (grow b (L + k)) - o))
      with (Buffer.size (grow b (L + k)) - o - k) by lia.
    destruct (Z.ltb_spec L (o + k)); fields; rewrite ?nadd_Int; reflexivity.
  - cbn [length with_buff _buff _encoding _writeOffset _readOffset with_length].
    rewrite ngt_Int.
    destruct (Z.ltb_spec L (o + k)); fields; rewrite ?nadd_Int; reflexivity.
Qed.

End Engine.

(** ** The fixed-width codecs of the platform *)

Section Codec.

Lemma byteOrder_involutive (be : bool) (bs : list byte) :
  Buffer.byteOrder be (Buffer.byteOrder be bs) = bs.
Proof. destruct be; simpl; [apply rev_involutive | reflexivity]. Qed.

Lemma byteOrder_length (be : bool) (bs : list byte) :
  List.length (Buffer.byteOrder be bs) = List.length bs.
Proof. destruct be; simpl; [apply length_rev | reflexivity]. Qed.

Lemma bytes_of_int_length (L : Buffer.IntLayout) (v : Z) :
  List.length (Buffer.bytes_of_int L v) = Buffer.int_bytes L.
Proof.
  unfold Buffer.bytes_of_int. now rewrite byteOrder_length, length_le_split.
Qed.

Lemma checkBounds_Int (b : Buffer) (o n : Z) :
  0 <= o -> o + n <= Buffer.size b ->
  Buffer.checkBounds b (Int o) n = Ok o.
Proof.
  intros Ho Hn. unfold Buffer.checkBounds. rewrite integer_value_Int.
  destruct (Z.leb_spec 0 o); [|lia].
  destruct (Z.leb_spec (o + n) (Buffer.size b)); [reflexivity | lia].
Qed.

(** An integer of the layout's range comes back from its bytes. *)
Lemma int_of_bytes_of_int (L : Buffer.IntLayout) (v : Z) :
  Buffer.minValue L <= v <= Buffer.maxValue L ->
  Buffer.int_of_bytes L (Buffer.bytes_of_int L v) = v.
Proof.
  unfold Buffer.int_of_bytes, Buffer.bytes_of_int, Buffer.minValue,
    Buffer.maxValue, Buffer.int_bits.
  rewrite byteOrder_involutive, le_combine_split.
  replace (Z.of_nat (Buffer.int_bytes L) * 8) with (8 * Z.of_nat (Buffer.int_bytes L)) by lia.
  set (w := 8 * Z.of_nat (Buffer.int_bytes L)).
  destruct (Buffer.int_signed L); cbn [andb]; intros Hv.
  - destruct (Z.eq_dec w 0) as [E|NE].
    + rewrite E in Hv. cbn in Hv. lia.
    + assert (Hw : 0 < w) by (unfold w in *; lia).
      assert (H2 : 2 ^ w = 2 * 2 ^ (w - 1)).
      { rewrite <- Z.pow_succ_r by lia. f_equal. lia. }
      assert (Hp : 0 < 2 ^ (w - 1)) by (apply Z.pow_pos_nonneg; lia).
      destruct (Z.lt_ge_cases v 0) as [Hneg|Hpos].
      * replace (v mod 2 ^ w) with (v + 2 ^ w).
        -- destruct (Z.ltb_spec (2 ^ (w - 1) - 1) (v + 2 ^ w)); lia.
        -- apply Z.mod_unique with (q := -1); lia.
      * rewrite Z.mod_small by lia.
        destruct (Z.ltb_spec (2 ^ (w - 1) - 1) v); lia.
  - apply Z.mod_small. lia.
Qed.

Lemma writeInteger_stores (L : Buffer.IntLayout) (v : Z) :
  Buffer.minValue L <= v <= Buffer.maxValue L ->
  stores (Buffer.writeInteger L) v (Buffer.bytes_of_int L v).
Proof.
  intros Hv b o Ho Hb. unfold Buffer.writeInteger.
  destruct (Z.ltb_spec v (Buffer.minValue L)); [lia|].
  destruct (Z.ltb_spec (Buffer.maxValue L) v); [lia|]. cbn [orb].
  unfold Buffer.size at 1 in Hb. rewrite bytes_of_int_length in Hb.
  now rewrite checkBounds_Int by lia.
Qed.

Lemma readInteger_loads (L : Buffer.IntLayout) :
  loads (Buffer.readInteger L) (Buffer.int_bytes L) (Buffer.int_of_bytes L).
Proof.
  intros b o Ho Hb. unfold Buffer.readInteger.
  now rewrite checkBounds_Int by lia.
Qed.

End Codec.

Lemma digits2_pos_bounds (m : positive) :
  2 ^ (Z.pos (digits2_pos m) - 1) <= Z.pos m < 2 ^ Z.pos (digits2_pos m).
Proof.
  induction m as [p IH|p IH|]; cbn [digits2_pos].
  - rewrite Pos2Z.inj_succ.
    replace (Z.succ (Z.pos (digits2_pos p)) - 1) with (Z.succ (Z.pos (digits2_pos p) - 1)) by lia.
    rewrite !Z.pow_succ_r by lia. lia.
  - rewrite Pos2Z.inj_succ.
    replace (Z.succ (Z.pos (digits2_pos p)) - 1) with (Z.succ (Z.pos (digits2_pos p) - 1)) by lia.
    rewrite !Z.pow_succ_r by lia. lia.
  - cbn. lia.
Qed.

Section Format.
Variable F : Buffer.FloatLayout.
Hypothesis Hmw : 0 < Buffer.fraction_bits F.
Hypothesis Hew : 0 < Buffer.exponent_bits F.

Let mw := Buffer.fraction_bits F.
Let ew := Buffer.exponent_bits F.

Lemma two_emax : 2 * Buffer.float_emax F = 2 ^ ew.
Proof.
  unfold Buffer.float_emax. fold ew. rewrite <- Z.pow_succ_r by lia.
  f_equal. lia.
Qed.

Lemma fields_of_join (s : bool) (e m : Z) :
  0 <= e < 2 ^ ew -> 0 <= m < 2 ^ mw ->
  let x := Buffer.join_bits F s e m in
  x mod 2 ^ mw = m /\ (x / 2 ^ mw) mod 2 ^ ew = e /\
  Z.odd (x / 2 ^ (mw + ew)) = s /\ 0 <= x < 2 ^ (1 + ew + mw).
Proof.
  intros He Hm. cbv zeta. unfold Buffer.join_bits. fold mw ew.
  assert (Pm : 0 < 2 ^ mw) by (apply Z.pow_pos_nonneg; lia).
  assert (Pe : 0 < 2 ^ ew) by (apply Z.pow_pos_nonneg; lia).
  set (S := if s then 2 ^ ew else 0).
  assert (HS : 0 <= S <= 2 ^ ew) by (unfold S; destruct s; lia).
  assert (D : (((S + e) * 2 ^ mw + m) / 2 ^ mw) = S + e).
  { rewrite Z.div_add_l by lia. rewrite Z.div_small by lia. lia. }
  repeat split.
  - rewrite Z.add_comm, Z.mod_add by lia. apply Z.mod_small; lia.
  - rewrite D. unfold S. destruct s.
    + rewrite <- (Z.mul_1_l (2 ^ ew)) at 1. rewrite Z.add_comm, Z.mod_add by lia.
      apply Z.mod_small; lia.
    + apply Z.mod_small; lia.
  - rewrite Z.pow_add_r by lia. rewrite <- Z.div_div by lia. rewrite D.
    unfold S. destruct s.
    + rewrite <- (Z.mul_1_l (2 ^ ew)) at 1. rewrite Z.div_add_l by lia.
      rewrite Z.div_small by lia. reflexivity.
    + rewrite Z.div_small by lia. reflexivity.
  - nia.
  - replace (1 + ew + mw) with (Z.succ (ew + mw)) by lia.
    rewrite Z.pow_succ_r, Z.pow_add_r by lia. nia.
Qed.

(** The fields a valid finite number is written with. *)
Lemma finite_fields (m : positive) (e : Z) :
  bounded (Buffer.float_prec F) (Buffer.float_emax F) m e = true ->
  (2 ^ mw <= Z.pos m /\ Z.pos m < 2 * 2 ^ mw /\
   1 <= e - Buffer.float_emin F + 1 <= 2 ^ ew - 2)
  \/ (Z.pos m < 2 ^ mw /\ e = Buffer.float_emin F).
Proof.
  unfold bounded, canonical_mantissa, fexp, Buffer.float_emin.
  intros H. apply andb_prop in H as [Hc He].
  apply Z.eqb_eq in Hc. apply Z.leb_le in He.
  pose proof (digits2_pos_bounds m) as [Hlo Hhi].
  pose proof two_emax as H2.
  set (d := Z.pos (digits2_pos m)) in *.
  unfold Buffer.float_prec in *. fold mw in Hc, He |- *.
  unfold emin in *.
  set (emax := Buffer.float_emax F) in *.
  assert (Pm : 0 < 2 ^ mw) by (apply Z.pow_pos_nonneg; lia).
  destruct (Z.le_gt_cases (2 ^ mw) (Z.pos m)) as [Hn|Hs].
  - left. 
    assert (mw < d).
    { destruct (Z.lt_ge_cases mw d); trivial.
      assert (2 ^ d <= 2 ^ mw) by (apply Z.pow_le_mono_r; lia). lia. }
    assert (d = mw + 1) by lia.
    repeat split; try lia.
    rewrite <- Z.pow_succ_r by lia. replace (Z.succ mw) with d by lia. lia.
  - right. split; trivial.
    assert (d - 1 < mw).
    { destruct (Z.lt_ge_cases (d - 1) mw); trivial.
      assert (2 ^ mw <= 2 ^ (d - 1)) by (apply Z.pow_le_mono_r; lia). lia. }
    lia.
Qed.

Lemma float_of_bits_of_float (v : spec_float) :
  valid_binary (Buffer.float_prec F) (Buffer.float_emax F) v = true ->
  Buffer.float_of_bits F (Buffer.bits_of_float F v) = v
  /\ 0 <= Buffer.bits_of_float F v < 2 ^ (1 + ew + mw).
Proof.
  assert (Pm : 0 < 2 ^ mw) by (apply Z.pow_pos_nonneg; subst mw; lia).
  assert (Pe : 2 <= 2 ^ ew).
  { change 2 with (2 ^ 1) at 1. apply Z.pow_le_mono_r; subst ew; lia. }
  assert (Ph : 0 < 2 ^ (mw - 1) < 2 ^ mw).
  { split; [apply Z.pow_pos_nonneg; subst mw; lia|].
    apply Z.pow_lt_mono_r; subst mw; lia. }
  intros Hv. unfold Buffer.float_of_bits, Buffer.bits_of_float. fold mw ew.
  destruct v as [s|s| |s m e]; cbn [valid_binary] in Hv.
  - destruct (fields_of_join s 0 0) as (-> & -> & -> & Hx); try lia.
    split; [reflexivity | exact Hx].
  - destruct (fields_of_join s (2 ^ ew - 1) 0) as (-> & -> & -> & Hx); try lia.
    split; [|exact Hx].
    destruct (Z.eqb_spec (2 ^ ew - 1) 0); [lia|].
    now rewrite !Z.eqb_refl.
  - destruct (fields_of_join false (2 ^ ew - 1) (2 ^ (mw - 1)))
      as (-> & -> & -> & Hx); try lia.
    split; [|exact Hx].
    destruct (Z.eqb_spec (2 ^ ew - 1) 0); [lia|].
    rewrite Z.eqb_refl.
    destruct (Z.eqb_spec (2 ^ (mw - 1)) 0); [lia | reflexivity].
  - destruct (finite_fields m e Hv) as [(Hn & Hm & He)|(Hs & ->)].
    + destruct (Z.leb_spec (2 ^ mw) (Z.pos m)); [|lia].
      destruct (fields_of_join s (e - Buffer.float_emin F + 1) (Z.pos m - 2 ^ mw))
        as (-> & -> & -> & Hx); try lia.
      split; [|exact Hx].
      destruct (Z.eqb_spec (e - Buffer.float_emin F + 1) 0); [lia|].
      destruct (Z.eqb_spec (e - Buffer.float_emin F + 1) (2 ^ ew - 1)); [lia|].
      replace (Z.pos m - 2 ^ mw + 2 ^ mw) with (Z.pos m) by lia.
      f_equal. lia.
    + destruct (Z.leb_spec (2 ^ mw) (Z.pos m)); [lia|].
      destruct (fields_of_join s 0 (Z.pos m)) as (-> & -> & -> & Hx); try lia.
      split; [reflexivity | exact Hx].
Qed.

(** Conversion to the format leaves what the format represents as it is. *)
Lemma toFormat_valid (v : spec_float) :
  valid_binary (Buffer.float_prec F) (Buffer.float_emax F) v = true ->
  Buffer.toFormat F v = v.
Proof.
  destruct v as [s|s| |s m e]; cbn [valid_binary Buffer.toFormat]; trivial.
  unfold bounded, canonical_mantissa. intros H.
  apply andb_prop in H as [Hc He]. apply Z.eqb_eq in Hc.
  unfold binary_round, shl_align. rewrite Hc, Z.sub_diag.
  unfold binary_round_aux, shr_fexp. cbn [Zdigits2]. rewrite Hc, Z.sub_diag.
  cbn [shr shr_record_of_loc shr_m loc_of_shr_record round_nearest_even Zdigits2].
  rewrite Hc, Z.sub_diag. cbn [shr shr_m]. now rewrite He.
Qed.

End Format.

Lemma bytes_of_float_length (F : Buffer.FloatLayout) (be : bool) (v : spec_float) :
  List.length (Buffer.bytes_of_float F be v) = Buffer.float_bytes F.
Proof.
  unfold Buffer.bytes_of_float. now rewrite byteOrder_length, length_le_split.
Qed.

Lemma float_of_bytes_of_float (F : Buffer.FloatLayout) (be : bool) (v : spec_float) :
  0 < Buffer.fraction_bits F -> 0 < Buffer.exponent_bits F ->
  Z.of_nat (Buffer.float_bytes F) * 8
    = 1 + Buffer.exponent_bits F + Buffer.fraction_bits F ->
  valid_binary (Buffer.float_prec F) (Buffer.float_emax F) v = true ->
  Buffer.float_of_bytes F be (Buffer.bytes_of_float F be v) = v.
Proof.
  intros Hm He Hn Hv. unfold Buffer.float_of_bytes, Buffer.bytes_of_float.
  rewrite byteOrder_involutive, le_combine_split, Hn, (toFormat_valid F v Hv).
  destruct (float_of_bits_of_float F Hm He v Hv) as [E B].
  now rewrite Z.mod_small.
Qed.

Lemma writeFloating_stores (F : Buffer.FloatLayout) (be : bool) (v : spec_float) :
  stores (Buffer.writeFloating F be) v (Buffer.bytes_of_float F be v).
Proof.
  intros b o Ho Hb. unfold Buffer.writeFloating.
  unfold Buffer.size at 1 in Hb. rewrite bytes_of_float_length in Hb.
  now rewrite checkBounds_Int by lia.
Qed.

Lemma readFloating_loads (F : Buffer.FloatLayout) (be : bool) :
  loads (Buffer.readFloating F be) (Buffer.float_bytes F)
    (Buffer.float_of_bytes F be).
Proof.
  intros b o Ho Hb. unfold Buffer.readFloating.
  now rewrite checkBounds_Int by lia.
Qed.

Lemma float_shape_roundtrip (sh : FloatShape) (v : spec_float) :
  float_representable sh v ->
  Buffer.float_of_bytes (format sh) (bigEndian sh)
    (Buffer.bytes_of_float (format sh) (bigEndian sh) v) = v.
Proof.
  intros Hv. apply float_of_bytes_of_float; trivial; destruct sh; cbn; lia.
Qed.

Lemma overwrite_nil (b : Buffer) (o : Z) : Buffer.overwrite b o [] = b.
Proof.
  unfold Buffer.overwrite. cbn [List.length app]. rewrite Nat.add_0_r.
  apply firstn_skipn.
Qed.

Lemma copy_whole_fits (src tgt : Buffer) (ts : Z) :
  0 <= ts -> ts + Buffer.size src <= Buffer.size tgt ->
  Buffer.copy src tgt (Int ts) None None = Ok (Buffer.overwrite tgt ts src).
Proof.
  intros Ht Hfit. rewrite copy_whole_Int by trivial. f_equal.
  pose proof (size_nonneg src).
  destruct (Z.leb_spec (Buffer.size src) 0).
  - assert (src = []) as ->.
    { destruct src; [reflexivity | unfold Buffer.size in *; cbn in *; lia]. }
    rewrite overwrite_nil. now destruct (_ <=? _).
  - destruct (Z.leb_spec (Buffer.size tgt) ts); [lia|]. cbn [orb].
    now rewrite firstn_all2 by (unfold Buffer.size in *; lia).
Qed.

(** ** The engine on integer cursors *)

Section Platformed.
Context {P : Platform}.

Lemma write_Int (b : Buffer) (str : string) (o : Z) (enc : string) :
  0 <= o -> o + Buffer.size (encodeText enc str) <= Buffer.size b ->
  Buffer.write b str (Int o) (Buffer.byteLength str enc) enc
  = Ok (Buffer.overwrite b o (encodeText enc str)).
Proof.
  intros Ho Hfit. unfold Buffer.write, Buffer.validateOffset, Buffer.byteLength.
  rewrite !integer_value_Int.
  pose proof (size_nonneg (encodeText enc str)) as Hk.
  destruct (Z.leb_spec 0 o); [|lia].
  destruct (Z.leb_spec o (Buffer.size b)); [|lia]. cbn [andb].
  destruct (Z.leb_spec 0 (Buffer.size (encodeText enc str))); [|lia].
  destruct (Z.leb_spec (Buffer.size (encodeText enc str)) (Buffer.size b)); [|lia].
  cbn [andb].
  destruct (Z.ltb_spec (Buffer.size b - o) (Buffer.size (encodeText enc str))); [lia|].
  now rewrite firstn_all2 by (unfold Buffer.size; lia).
Qed.

Lemma size_shifted (g : Buffer) (o k : Z) :
  0 <= o -> 0 <= k -> o + k <= Buffer.size g ->
  Buffer.size (shifted g o k) = Buffer.size g.
Proof.
  intros Ho Hk Hg. unfold shifted. apply overwrite_length; [lia|].
  unfold Buffer.size in *. rewrite length_firstn, length_skipn. lia.
Qed.

Lemma size_opened (b : Buffer) (L o k : Z) :
  0 <= o -> 0 <= k ->
  Buffer.size (opened b L o k) = Buffer.size (grow b (L + k)).
Proof.
  intros Ho Hk. unfold opened.
  destruct (Z.ltb_spec o L); [|reflexivity].
  apply size_shifted; trivial. pose proof (size_grow_ge b (L + k)). lia.
Qed.

Section Numeric.
Context {T : Type}.
Variable wfunc : Buffer -> T -> number -> Result Buffer.
Variable rfunc : Buffer -> number -> Result T.
Variables (v : T) (bytes : list byte) (dec : list byte -> T).
Hypothesis Hstores : stores wfunc v bytes.
Hypothesis Hloads : loads rfunc (List.length bytes) dec.

Let k := Buffer.size bytes.

Lemma writeNumberValue_at (o L : Z) e b W R :
  0 <= o ->
  _writeNumberValue wfunc (Int k) v (Num (Int o)) (mkSmartBuffer (Int L) e b W R)
  = (Ok tt,
     mkSmartBuffer (Int (Z.max L (o + k))) e
       (Buffer.overwrite (grow b (o + k)) o bytes)
       (Math_max W (Int (o + k))) R).
Proof.
  intros Ho. unfold _writeNumberValue. run.
  rewrite nlt_Int, checkOffsetValue_Int.
  destruct (Z.ltb_spec o 0); [lia|].
  rewrite ensureWriteable_Int. fields.
  rewrite Hstores; trivial.
  - fields. now rewrite nadd_Int.
  - pose proof (size_grow_ge b (o + k)). subst k. lia.
Qed.

Lemma writeNumberValue_rel (w L : Z) e b R :
  0 <= w ->
  _writeNumberValue wfunc (Int k) v undefined
    (mkSmartBuffer (Int L) e b (Int w) R)
  = (Ok tt,
     mkSmartBuffer (Int (Z.max L (w + k))) e
       (Buffer.overwrite (grow b (w + k)) w bytes) (Int (w + k)) R).
Proof.
  intros Hw. unfold _writeNumberValue. run. fields.
  rewrite ensureWriteable_Int. fields.
  rewrite Hstores; trivial.
  - fields. now rewrite nadd_Int.
  - pose proof (size_grow_ge b (w + k)). subst k. lia.
Qed.

Lemma insertNumberValue_at (o L : Z) e b W R :
  0 <= o -> L <= Buffer.size b ->
  o + k <= Buffer.size (grow b (L + k)) ->
  _insertNumberValue wfunc (Int k) v (Num (Int o))
    (mkSmartBuffer (Int L) e b W R)
  = (Ok tt,
     mkSmartBuffer (Int (if L <? o + k then o + k else L + k)) e
       (Buffer.overwrite (opened b L o k) o bytes) (nadd W (Int k)) R).
Proof.
  intros Ho HL Hfit. unfold _insertNumberValue. run.
  rewrite checkOffsetValue_Int. destruct (Z.ltb_spec o 0); [lia|].
  pose proof (size_nonneg bytes) as Hk. fold k in Hk.
  rewrite ensureInsertable_Int by lia. fields. cbn [ToNumber].
  rewrite Hstores; trivial.
  fold k. now rewrite size_opened.
Qed.

Lemma readNumberValue_rel (r L : Z) e b W :
  0 <= r -> r + k <= L -> L <= Buffer.size b ->
  _readNumberValue rfunc (Int k) undefined (mkSmartBuffer (Int L) e b W (Int r))
  = (Ok (dec (firstn (List.length bytes) (skipn (Z.to_nat r) b))),
     mkSmartBuffer (Int L) e b W (Int (r + k))).
Proof.
  intros Hr Hk HL. unfold _readNumberValue, ensureReadable. run. fields.
  rewrite nlt_Int, nadd_Int, ngt_Int.
  destruct (Z.ltb_spec r 0); [lia|].
  destruct (Z.ltb_spec L (r + k)); [lia|]. cbn [orb]. fields.
  rewrite Hloads; trivial.
  - fields. now rewrite nadd_Int.
  - unfold k, Buffer.size in *. lia.
Qed.

End Numeric.
End Platformed.

Section Runs.
Context {P : Platform}.

Lemma handleBuffer_insert (v : Buffer) (o L : Z) e b W R :
  0 <= o -> L <= Buffer.size b ->
  o + Buffer.size v <= Buffer.size (grow b (L + Buffer.size v)) ->
  _handleBuffer v true (Num (Int o)) (mkSmartBuffer (Int L) e b W R)
  = (Ok tt,
     mkSmartBuffer
       (Int (if L <? o + Buffer.size v then o + Buffer.size v
             else L + Buffer.size v)) e
       (Buffer.overwrite (opened b L o (Buffer.size v)) o v)
       (nadd W (Int (Buffer.size v))) R).
Proof.
  intros Ho HL Hfit. unfold _handleBuffer. run. unfold Buffer.length.
  pose proof (size_nonneg v) as Hk.
  rewrite ensureInsertable_Int by lia. fields.
  rewrite copy_whole_fits; trivial.
  now rewrite size_opened.
Qed.

Lemma handleBuffer_write_at (v : Buffer) (o L : Z) e b W R :
  0 <= o ->
  _handleBuffer v false (Num (Int o)) (mkSmartBuffer (Int L) e b W R)
  = (Ok tt,
     mkSmartBuffer (Int (Z.max L (o + Buffer.size v))) e
       (Buffer.overwrite (grow b (o + Buffer.size v)) o v)
       (Math_max W (Int (o + Buffer.size v))) R).
Proof.
  intros Ho. unfold _handleBuffer. run. unfold Buffer.length.
  rewrite ensureWriteable_Int. fields.
  rewrite copy_whole_fits; trivial.
  - fields. now rewrite nadd_Int.
  - pose proof (size_grow_ge b (o + Buffer.size v)). lia.
Qed.

Lemma handleBuffer_write_rel (v : Buffer) (w L : Z) e b R :
  0 <= w ->
  _handleBuffer v false undefined (mkSmartBuffer (Int L) e b (Int w) R)
  = (Ok tt,
     mkSmartBuffer (Int (Z.max L (w + Buffer.size v))) e
       (Buffer.overwrite (grow b (w + Buffer.size v)) w v)
       (Int (w + Buffer.size v)) R).
Proof.
  intros Hw. unfold _handleBuffer. run. unfold Buffer.length. fields.
  rewrite ensureWriteable_Int. fields.
  rewrite copy_whole_fits; trivial.
  - fields. now rewrite nadd_Int.
  - pose proof (size_grow_ge b (w + Buffer.size v)). lia.
Qed.

Lemma handleString_insert (v : string) (encoding : value) (o L : Z) e b W R :
  encoding_accepted encoding ->
  let bytes := encodeText (encoding_name encoding e) v in
  0 <= o -> L <= Buffer.size b ->
  o + Buffer.size bytes <= Buffer.size (grow b (L + Buffer.size bytes)) ->
  _handleString v true (Num (Int o)) encoding (mkSmartBuffer (Int L) e b W R)
  = (Ok tt,
     mkSmartBuffer
       (Int (if L <? o + Buffer.size bytes then o + Buffer.size bytes
             else L + Buffer.size bytes)) e
       (Buffer.overwrite (opened b L o (Buffer.size bytes)) o bytes)
       (nadd W (Int (Buffer.size bytes))) R).
Proof.
  intros Henc bytes Ho HL Hfit. unfold _handleString. run. fields. cbn [fst snd].
  pose proof (size_nonneg bytes) as Hk.
  assert (Hrun : forall enc, encoding_name encoding e = enc ->
    match
      ensureInsertable (Buffer.byteLength v enc) (Num (Int o))
        (mkSmartBuffer (Int L) e b W R)
    with
    | (Ok _, s') =>
        match Buffer.write (_buff s') v (Int o) (Buffer.byteLength v enc) enc with
        | Ok b' =>
            (Ok tt,
             with_writeOffset (nadd (_writeOffset (with_buff b' s'))
                                 (Buffer.byteLength v enc)) (with_buff b' s'))
        | Throw err => (Throw err, s')
        end
    | (Throw err, s') => (Throw err, s')
    end
    = (Ok tt,
       mkSmartBuffer
         (Int (if L <? o + Buffer.size bytes then o + Buffer.size bytes
               else L + Buffer.size bytes)) e
         (Buffer.overwrite (opened b L o (Buffer.size bytes)) o bytes)
         (nadd W (Int (Buffer.size bytes))) R)).
  { intros enc <-. unfold Buffer.byteLength at 1. fold bytes.
    rewrite ensureInsertable_Int by lia. fields.
    rewrite write_Int; trivial.
    fold bytes. now rewrite size_opened. }
  destruct encoding as [|n|enc]; cbn [encoding_name] in *.
  - now apply Hrun.
  - now apply Hrun.
  - cbn [checkEncoding]. rewrite Henc. now apply Hrun.
Qed.

Lemma handleString_write_at (v : string) (encoding : value) (o L : Z) e b W R :
  encoding_accepted encoding ->
  let bytes := encodeText (encoding_name encoding e) v in
  0 <= o ->
  _handleString v false (Num (Int o)) encoding (mkSmartBuffer (Int L) e b W R)
  = (Ok tt,
     mkSmartBuffer (Int (Z.max L (o + Buffer.size bytes))) e
       (Buffer.overwrite (grow b (o + Buffer.size bytes)) o bytes)
       (Math_max W (Int (o + Buffer.size bytes))) R).
Proof.
  intros Henc bytes Ho. unfold _handleString. run. fields. cbn [fst snd].
  assert (Hrun : forall enc, encoding_name encoding e = enc ->
    match
      _ensureWriteable (Buffer.byteLength v enc) (Num (Int o))
        (mkSmartBuffer (Int L) e b W R)
    with
    | (Ok _, s') =>
        match Buffer.write (_buff s') v (Int o) (Buffer.byteLength v enc) enc with
        | Ok b' =>
            (Ok tt,
             with_writeOffset
               (Math_max (_writeOffset (with_buff b' s'))
                  (nadd (Int o) (Buffer.byteLength v enc))) (with_buff b' s'))
        | Throw err => (Throw err, s')
        end
    | (Throw err, s') => (Throw err, s')
    end
    = (Ok tt,
       mkSmartBuffer (Int (Z.max L (o + Buffer.size bytes))) e
         (Buffer.overwrite (grow b (o + Buffer.size bytes)) o bytes)
         (Math_max W (Int (o + Buffer.size bytes))) R)).
  { intros enc <-. unfold Buffer.byteLength at 1. fold bytes.
    rewrite ensureWriteable_Int. fields.
    rewrite write_Int; trivial.
    - unfold Buffer.byteLength. fold bytes. fields. now rewrite nadd_Int.
    - fold bytes. pose proof (size_grow_ge b (o + Buffer.size bytes)). lia. }
  destruct encoding as [|n|enc]; cbn [encoding_name] in *.
  - now apply Hrun.
  - now apply Hrun.
  - cbn [checkEncoding]. rewrite Henc. now apply Hrun.
Qed.

Lemma handleString_write_rel (v : string) (encoding : value) (w L : Z) e b R :
  encoding_accepted encoding ->
  let bytes := encodeText (encoding_name encoding e) v in
  0 <= w ->
  _handleString v false undefined encoding
    (mkSmartBuffer (Int L) e b (Int w) R)
  = (Ok tt,
     mkSmartBuffer (Int (Z.max L (w + Buffer.size bytes))) e
       (Buffer.overwrite (grow b (w + Buffer.size bytes)) w bytes)
       (Int (w + Buffer.size bytes)) R).
Proof.
  intros Henc bytes Hw. unfold _handleString. run. fields. cbn [fst snd].
  assert (Hrun : forall enc, encoding_name encoding e = enc ->
    match
      _ensureWriteable (Buffer.byteLength v enc) (Num (Int w))
        (mkSmartBuffer (Int L) e b (Int w) R)
    with
    | (Ok _, s') =>
        match Buffer.write (_buff s') v (Int w) (Buffer.byteLength v enc) enc with
        | Ok b' =>
            (Ok tt,
             with_writeOffset
               (nadd (_writeOffset (with_buff b' s')) (Buffer.byteLength v enc))
               (with_buff b' s'))
        | Throw err => (Throw err, s')
        end
    | (Throw err, s') => (Throw err, s')
    end
    = (Ok tt,
       mkSmartBuffer (Int (Z.max L (w + Buffer.size bytes))) e
         (Buffer.overwrite (grow b (w + Buffer.size bytes)) w bytes)
         (Int (w + Buffer.size bytes)) R)).
  { intros enc <-. unfold Buffer.byteLength at 1. fold bytes.
    rewrite ensureWriteable_Int. fields.
    rewrite write_Int; trivial.
    - unfold Buffer.byteLength. fold bytes. fields. now rewrite nadd_Int.
    - fold bytes. pose proof (size_grow_ge b (w + Buffer.size bytes)). lia. }
  destruct encoding as [|n|enc]; cbn [encoding_name] in *.
  - now apply Hrun.
  - now apply Hrun.
  - cbn [checkEncoding]. rewrite Henc. now apply Hrun.
Qed.

End Runs.

(** ** The methods on every kind of data *)

Section Methods.
Context {P : Platform}.

Lemma capability_granted (sh : IntegerShape) (reading : bool) (name : string) :
  supported sh reading = true -> accessor sh reading = Some name ->
  bigIntAndBufferInt64Check name = Ok tt.
Proof.
  unfold supported, bigIntAndBufferInt64Check. intros H E. rewrite E in H.
  apply andb_prop in H as [-> ->]. reflexivity.
Qed.

Ltac capability H :=
  unfold bind at 1, lift at 1;
  rewrite (capability_granted _ _ _ H eq_refl).

Lemma insertInteger_run (sh : IntegerShape) (v : Z) (offset : value) s :
  supported sh false = true ->
  insertInteger sh v offset s
  = _insertNumberValue (Buffer.writeInteger (layout sh))
      (Int (Buffer.size (Buffer.bytes_of_int (layout sh) v))) v offset s.
Proof.
  intros H. destruct sh; cbn [insertInteger layout]; try reflexivity.
  - unfold insertBigInt64BE. capability H. reflexivity.
  - unfold insertBigInt64LE. capability H. reflexivity.
  - unfold insertBigUInt64BE. capability H. reflexivity.
  - unfold insertBigUInt64LE. capability H. reflexivity.
Qed.

Lemma writeInteger_run (sh : IntegerShape) (v : Z) (offset : value) s :
  supported sh false = true ->
  writeInteger sh v offset s
  = _writeNumberValue (Buffer.writeInteger (layout sh))
      (Int (Buffer.size (Buffer.bytes_of_int (layout sh) v))) v offset s.
Proof.
  intros H. destruct sh; cbn [writeInteger layout]; try reflexivity.
  - unfold writeBigInt64BE. capability H. reflexivity.
  - unfold writeBigInt64LE. capability H. reflexivity.
  - unfold writeBigUInt64BE. capability H. reflexivity.
  - unfold writeBigUInt64LE. capability H. reflexivity.
Qed.

Lemma readInteger_run (sh : IntegerShape) (v : Z) (offset : value) s :
  supported sh true = true ->
  readInteger sh offset s
  = _readNumberValue (Buffer.readInteger (layout sh))
      (Int (Buffer.size (Buffer.bytes_of_int (layout sh) v))) offset s.
Proof.
  intros H. destruct sh; cbn [readInteger layout]; try reflexivity.
  - unfold readBigInt64BE. capability H. reflexivity.
  - unfold readBigInt64LE. capability H. reflexivity.
  - unfold readBigUInt64BE. capability H. reflexivity.
  - unfold readBigUInt64LE. capability H. reflexivity.
Qed.

Lemma insertFloat_run (sh : FloatShape) (v : spec_float) (offset : value) s :
  insertFloat sh v offset s
  = _insertNumberValue (Buffer.writeFloating (format sh) (bigEndian sh))
      (Int (Buffer.size (Buffer.bytes_of_float (format sh) (bigEndian sh) v)))
      v offset s.
Proof. destruct sh; reflexivity. Qed.

Lemma writeFloat_run (sh : FloatShape) (v : spec_float) (offset : value) s :
  writeFloat sh v offset s
  = _writeNumberValue (Buffer.writeFloating (format sh) (bigEndian sh))
      (Int (Buffer.size (Buffer.bytes_of_float (format sh) (bigEndian sh) v)))
      v offset s.
Proof. destruct sh; reflexivity. Qed.

Lemma readFloat_run (sh : FloatShape) (v : spec_float) (offset : value) s :
  readFloat sh offset s
  = _readNumberValue (Buffer.readFloating (format sh) (bigEndian sh))
      (Int (Buffer.size (Buffer.bytes_of_float (format sh) (bigEndian sh) v)))
      offset s.
Proof. destruct sh; reflexivity. Qed.

(** An insert whose data fit the store after the growth step. *)
Lemma insert_at (d : Data) (o L : Z) e b W R :
  acceptable d -> 0 <= o -> L <= Buffer.size b ->
  let s := mkSmartBuffer (Int L) e b W R in
  let k := Buffer.size (payload d s) in
  o + k <= Buffer.size (grow b (L + k)) ->
  insert d (Num (Int o)) s
  = (Ok tt,
     mkSmartBuffer (Int (if L <? o + k then o + k else L + k)) e
       (Buffer.overwrite (opened b L o k) o (payload d s))
       (nadd W (Int k)) R).
Proof.
  intros Hd Ho HL s k Hfit. subst s k.
  destruct d as [sh v|sh v|v|v encoding]; cbn [insert payload acceptable] in *.
  - destruct Hd as [Hv Hs]. rewrite insertInteger_run by trivial.
    apply insertNumberValue_at; trivial. now apply writeInteger_stores.
  - rewrite insertFloat_run.
    apply insertNumberValue_at; trivial. apply writeFloating_stores.
  - unfold insertBuffer. run. rewrite checkOffsetValue_Int.
    destruct (Z.ltb_spec o 0); [lia|]. now apply handleBuffer_insert.
  - unfold insertString. run. rewrite checkOffsetValue_Int.
    destruct (Z.ltb_spec o 0); [lia|]. now apply handleString_insert.
Qed.

(** A write at an explicit offset. *)
Lemma write_at (d : Data) (o L : Z) e b W R :
  acceptable d -> 0 <= o ->
  let s := mkSmartBuffer (Int L) e b W R in
  let k := Buffer.size (payload d s) in
  write d (Num (Int o)) s
  = (Ok tt,
     mkSmartBuffer (Int (Z.max L (o + k))) e
       (Buffer.overwrite (grow b (o + k)) o (payload d s))
       (Math_max W (Int (o + k))) R).
Proof.
  intros Hd Ho s k. subst s k.
  destruct d as [sh v|sh v|v|v encoding]; cbn [write payload acceptable] in *.
  - destruct Hd as [Hv Hs]. rewrite writeInteger_run by trivial.
    apply writeNumberValue_at; trivial. now apply writeInteger_stores.
  - rewrite writeFloat_run.
    apply writeNumberValue_at; trivial. apply writeFloating_stores.
  - now apply handleBuffer_write_at.
  - now apply handleString_write_at.
Qed.

(** A write at the write cursor. *)
Lemma write_rel (d : Data) (w L : Z) e b R :
  acceptable d -> 0 <= w ->
  let s := mkSmartBuffer (Int L) e b (Int w) R in
  let k := Buffer.size (payload d s) in
  write d undefined s
  = (Ok tt,
     mkSmartBuffer (Int (Z.max L (w + k))) e
       (Buffer.overwrite (grow b (w + k)) w (payload d s))
       (Int (w + k)) R).
Proof.
  intros Hd Hw s k. subst s k.
  destruct d as [sh v|sh v|v|v encoding]; cbn [write payload acceptable] in *.
  - destruct Hd as [Hv Hs]. rewrite writeInteger_run by trivial.
    apply writeNumberValue_rel; trivial. now apply writeInteger_stores.
  - rewrite writeFloat_run.
    apply writeNumberValue_rel; trivial. apply writeFloating_stores.
  - now apply handleBuffer_write_rel.
  - now apply handleString_write_rel.
Qed.

End Methods.

(** ** Slices and live bytes *)

Lemma slice_Int (b : Buffer) (s e : Z) :
  0 <= s -> 0 <= e ->
  Buffer.slice b (Int s) (Int e)
  = firstn (Z.to_nat (Z.min e (Buffer.size b) - Z.min s (Buffer.size b)))
      (skipn (Z.to_nat (Z.min s (Buffer.size b))) b).
Proof.
  intros Hs He. unfold Buffer.slice, Buffer.adjustOffset, Int.
  rewrite !Qfloor_Z.
  destruct (Z.ltb_spec s 0); [lia|]. destruct (Z.ltb_spec e 0); [lia|].
  destruct (Z.ltb_spec s (Buffer.size b)), (Z.ltb_spec e (Buffer.size b));
    repeat f_equal; lia.
Qed.

Lemma live_Int (L : Z) e b W R :
  0 <= L <= Buffer.size b ->
  live (mkSmartBuffer (Int L) e b W R) = firstn (Z.to_nat L) b.
Proof.
  intros HL. unfold live. fields. rewrite slice_Int by lia.
  rewrite Z.min_l, Z.min_l by lia. cbn [Z.to_nat skipn]. f_equal. lia.
Qed.

(** ** The layout of the store after an insert *)

Section Splice.
Context {P : Platform}.

Lemma grow_app (b : Buffer) (m : Z) : exists junk, grow b m = b ++ junk.
Proof.
  unfold grow. destruct (Buffer.size b <? m); eauto.
  exists []. now rewrite app_nil_r.
Qed.

Lemma overwrite_app (p t bytes : list byte) :
  (List.length bytes <= List.length t)%nat ->
  Buffer.overwrite (p ++ t) (Z.of_nat (List.length p)) bytes
  = p ++ bytes ++ skipn (List.length bytes) t.
Proof.
  intros H. unfold Buffer.overwrite. rewrite Nat2Z.id.
  rewrite firstn_app, Nat.sub_diag, firstn_all. cbn [firstn].
  rewrite app_nil_r. f_equal. f_equal.
  rewrite skipn_app.
  rewrite skipn_all2 by lia. cbn [app]. f_equal. lia.
Qed.

Lemma shifted_app (p t : list byte) (k : nat) :
  (k <= List.length t)%nat ->
  shifted (p ++ t) (Z.of_nat (List.length p)) (Z.of_nat k)
  = p ++ firstn k t ++ firstn (List.length t - k) t.
Proof.
  intros H. unfold shifted, Buffer.overwrite, Buffer.size.
  rewrite length_app, Nat2Z.id.
  replace (Z.to_nat (Z.of_nat (List.length p) + Z.of_nat k))
    with (List.length p + k)%nat by lia.
  replace (Z.to_nat (Z.of_nat (List.length p + List.length t)
                     - Z.of_nat (List.length p) - Z.of_nat k))
    with (List.length t - k)%nat by lia.
  rewrite skipn_app, Nat.sub_diag, skipn_all. cbn [skipn app].
  rewrite firstn_app, firstn_all2 by lia.
  replace (List.length p + k - List.length p)%nat with k by lia.
  rewrite <- app_assoc. f_equal. f_equal.
  rewrite skipn_all2; [now rewrite app_nil_r|].
  rewrite length_app, length_firstn. lia.
Qed.

(** The store after an insert below the logical length, read up to the
    new length: the old live bytes with the data spliced in at [o]. *)
Lemma splice (b bytes : list byte) (L o : Z) :
  0 <= o <= L -> L <= Buffer.size b ->
  firstn (Z.to_nat (L + Buffer.size bytes))
    (Buffer.overwrite (opened b L o (Buffer.size bytes)) o bytes)
  = firstn (Z.to_nat o) b ++ bytes
      ++ skipn (Z.to_nat o) (firstn (Z.to_nat L) b).
Proof.
  intros Ho HL. unfold opened.
  destruct (grow_app b (L + Buffer.size bytes)) as [junk Hg].
  pose proof (size_grow_ge b (L + Buffer.size bytes)) as [Hsz _].
  rewrite Hg in *. clear Hg.
  set (p := firstn (Z.to_nat o) b).
  set (t := skipn (Z.to_nat o) b).
  replace (b ++ junk) with (p ++ t ++ junk) in *
    by (rewrite app_assoc; unfold p, t; now rewrite firstn_skipn).
  assert (Hp : List.length p = Z.to_nat o).
  { unfold p. rewrite length_firstn. unfold Buffer.size in *. lia. }
  assert (Ht : (Z.to_nat o + List.length t = List.length b)%nat).
  { unfold t. rewrite length_skipn. unfold Buffer.size in *. lia. }
  assert (Eo : o = Z.of_nat (List.length p)) by lia.
  assert (Ek : Buffer.size bytes = Z.of_nat (List.length bytes)) by reflexivity.
  assert (Hfit : (List.length bytes <= List.length (t ++ junk))%nat).
  { unfold Buffer.size in Hsz. rewrite !length_app in *. lia. }
  assert (Hq : skipn (Z.to_nat o) (firstn (Z.to_nat L) b)
               = firstn (Z.to_nat L - Z.to_nat o) t).
  { unfold t. now rewrite skipn_firstn_comm. }
  rewrite Hq.
  destruct (Z.ltb_spec o L) as [Hlt|Hge].
  - rewrite Eo at 1 2. rewrite Ek at 2.
    rewrite shifted_app by trivial.
    rewrite overwrite_app
      by (rewrite length_app, length_firstn; lia).
    rewrite skipn_app, length_firstn.
    rewrite skipn_all2 by (rewrite length_firstn; lia).
    replace (List.length bytes - Nat.min (List.length bytes) (List.length (t ++ junk)))%nat
      with 0%nat by lia.
    cbn [skipn app].
    rewrite firstn_app, firstn_all2 by lia. f_equal.
    rewrite firstn_app, firstn_all2 by lia. f_equal.
    rewrite firstn_firstn, firstn_app.
    replace (Nat.min _ _) with (Z.to_nat L - Z.to_nat o)%nat.
    2:{ unfold Buffer.size in *. rewrite !length_app in *. lia. }
    replace (Z.to_nat L - Z.to_nat o - List.length t)%nat with 0%nat.
    2:{ unfold Buffer.size in *. lia. }
    cbn [firstn]. now rewrite app_nil_r.
  - assert (o = L) by lia. subst L.
    replace (Buffer.overwrite (p ++ t ++ junk) o bytes)
      with (Buffer.overwrite (p ++ t ++ junk) (Z.of_nat (List.length p)) bytes)
      by (f_equal; lia).
    rewrite overwrite_app by trivial.
    rewrite firstn_app, firstn_all2 by lia. f_equal.
    rewrite firstn_app, firstn_all2 by (unfold Buffer.size; lia).
    rewrite Nat.sub_diag. cbn [firstn]. f_equal.
    replace (Z.to_nat (o + Buffer.size bytes) - List.length p - List.length bytes)%nat
      with 0%nat by (unfold Buffer.size; lia).
    reflexivity.
Qed.

End Splice.

(** ** Null-terminated reads *)

Section Scan.

Lemma index_Int (b : Buffer) (i : Z) :
  0 <= i -> Buffer.index b (Int i) = nth_error b (Z.to_nat i).
Proof.
  intros Hi. unfold Buffer.index. rewrite integer_value_Int.
  destruct (Z.ltb_spec i 0); [lia | reflexivity].
Qed.

Lemma iterations_Int (i L : Z) : iterations (Int i) (Int L) = Z.to_nat (L - i).
Proof.
  unfold iterations. rewrite nsub_Int. unfold Int. now rewrite Qceiling_Z.
Qed.

(** No zero byte from [i] up to [L]: the scan ends at [L], whatever the
    number of turns. *)
Lemma findNull_none (b : Buffer) (L : Z) (turns : nat) :
  forall i : Z,
    0 <= i ->
    (forall j : Z, i <= j < L -> nth_error b (Z.to_nat j) <> Some Byte.x00) ->
    findNull turns b (Int i) (Int L) = Int L.
Proof.
  induction turns as [|turns IH]; intros i Hi Hnone; cbn [findNull].
  - reflexivity.
  - rewrite nlt_Int. destruct (Z.ltb_spec i L) as [Hlt|]; [|reflexivity].
    rewrite index_Int, nadd_Int by lia.
    destruct (nth_error b (Z.to_nat i)) as [x|] eqn:E.
    + destruct (Byte.eqb x Byte.x00) eqn:Ex.
      * apply Byte.byte_dec_bl in Ex. subst x.
        exfalso. apply (Hnone i); [lia | exact E].
      * apply IH; [lia|]. intros j Hj. apply Hnone. lia.
    + apply IH; [lia|]. intros j Hj. apply Hnone. lia.
Qed.

(** The first zero byte from [i] on is at [z], below [L]: the scan ends
    at [z], given the turns to reach it. *)
Lemma findNull_first (b : Buffer) (L z : Z) (turns : nat) :
  forall i : Z,
    0 <= i <= z -> z < L -> (Z.to_nat (z - i) < turns)%nat ->
    nth_error b (Z.to_nat z) = Some Byte.x00 ->
    (forall j : Z, i <= j < z -> nth_error b (Z.to_nat j) <> Some Byte.x00) ->
    findNull turns b (Int i) (Int L) = Int z.
Proof.
  induction turns as [|turns IH]; intros i Hi Hz Ht Hzero Hnone;
    cbn [findNull]; [lia|].
  rewrite nlt_Int. destruct (Z.ltb_spec i L) as [Hlt|]; [|lia].
  rewrite index_Int, nadd_Int by lia.
  destruct (Z.eq_dec i z) as [->|Hne].
  - rewrite Hzero. reflexivity.
  - assert (Hnz : nth_error b (Z.to_nat i) <> Some Byte.x00)
      by (apply Hnone; lia).
    destruct (nth_error b (Z.to_nat i)) as [x|] eqn:E.
    + destruct (Byte.eqb x Byte.x00) eqn:Ex.
      * apply Byte.byte_dec_bl in Ex. subst x. contradiction.
      * apply IH; trivial; try lia. intros j Hj. apply Hnone. lia.
    + apply IH; trivial; try lia. intros j Hj. apply Hnone. lia.
Qed.

End Scan.

Section NullTerminated.
Context {P : Platform}.

(** A null-terminated read with the terminator in the live bytes: the
    bytes before the terminator, the cursor just after it, within the
    logical length. *)
Lemma readBufferNT_terminated (L r z : Z) e b W :
  0 <= r <= z -> z < L -> L <= Buffer.size b ->
  nth_error b (Z.to_nat z) = Some Byte.x00 ->
  (forall j : Z, r <= j < z -> nth_error b (Z.to_nat j) <> Some Byte.x00) ->
  readBufferNT (mkSmartBuffer (Int L) e b W (Int r))
  = (Ok (Buffer.slice b (Int r) (Int z)),
     mkSmartBuffer (Int L) e b W (Int (z + 1))).
Proof.
  intros Hr Hz HL Hzero Hnone. unfold readBufferNT. run. fields.
  rewrite iterations_Int.
  rewrite (findNull_first b L z) by (trivial; lia).
  now rewrite nadd_Int.
Qed.

(** A null-terminated read with no terminator in the live bytes: all
    the live bytes from the cursor on, and the cursor one past the
    logical length. *)
Lemma readBufferNT_unterminated (L r : Z) e b W :
  0 <= r ->
  (forall j : Z, r <= j < L -> nth_error b (Z.to_nat j) <> Some Byte.x00) ->
  readBufferNT (mkSmartBuffer (Int L) e b W (Int r))
  = (Ok (Buffer.slice b (Int r) (Int L)),
     mkSmartBuffer (Int L) e b W (Int (L + 1))).
Proof.
  intros Hr Hnone. unfold readBufferNT. run. fields.
  rewrite (findNull_none b L) by trivial.
  now rewrite nadd_Int.
Qed.

End NullTerminated.

(** ** The invariant and the failures that change nothing *)

Section Invariant.
Context {P : Platform}.

(** A write of acceptable data, at the write cursor or at an explicit
    offset that is not negative, keeps the invariant. *)
Lemma write_keeps_invariant (d : Data) (offset : value) (s : SmartBuffer) :
  invariant s -> acceptable d ->
  offset = undefined \/ (exists o : Z, offset = Num (Int o) /\ 0 <= o) ->
  exists s' : SmartBuffer, write d offset s = (Ok tt, s') /\ invariant s'.
Proof.
  intros (L & w & r & HL & HW & HR & Hr & Hw & Hcap) Hd Hoff.
  destruct s as [len e b W R]. cbn [length _buff _writeOffset _readOffset] in *.
  subst len W R.
  set (k := Buffer.size (payload d (mkSmartBuffer (Int L) e b (Int w) (Int r)))).
  assert (Hk : 0 <= k) by apply size_nonneg.
  destruct Hoff as [->|(o & -> & Ho)].
  - rewrite write_rel by (trivial; lia). fold k.
    eexists. split; [reflexivity|].
    exists (Z.max L (w + k)), (w + k), r. fields.
    pose proof (size_grow_ge b (w + k)) as [Hg1 Hg2].
    rewrite overwrite_length by (fold k; lia).
    repeat split; trivial; lia.
  - rewrite write_at by trivial. fold k.
    eexists. split; [reflexivity|]. rewrite Math_max_Int.
    exists (Z.max L (o + k)), (Z.max w (o + k)), r. fields.
    pose proof (size_grow_ge b (o + k)) as [Hg1 Hg2].
    rewrite overwrite_length by (fold k; lia).
    repeat split; trivial; lia.
Qed.

(** An insert of acceptable data at or below the logical length keeps
    the invariant when it does not run over the former length, or is an
    append. *)
Lemma insert_keeps_invariant (d : Data) (o L : Z) (s : SmartBuffer) :
  invariant s -> acceptable d -> length s = Int L -> 0 <= o ->
  o + Buffer.size (payload d s) <= L \/ o = L ->
  exists s' : SmartBuffer,
    insert d (Num (Int o)) s = (Ok tt, s') /\ invariant s'.
Proof.
  intros (L' & w & r & HL & HW & HR & Hr & Hw & Hcap) Hd HL' Ho Hrange.
  destruct s as [len e b W R]. cbn [length _buff _writeOffset _readOffset] in *.
  subst len W R. apply Int_inj in HL'. subst L'.
  set (bytes := payload d (mkSmartBuffer (Int L) e b (Int w) (Int r))) in *.
  set (k := Buffer.size bytes) in *.
  assert (Hk : 0 <= k) by apply size_nonneg.
  pose proof (size_grow_ge b (L + k)) as [Hg _].
  pose proof (insert_at d o L e b (Int w) (Int r) Hd Ho Hcap) as Hrun.
  cbv zeta in Hrun. fold bytes in Hrun. fold k in Hrun.
  rewrite Hrun by lia. eexists. split; [reflexivity|].
  rewrite nadd_Int.
  exists (L + k), (w + k), r. fields.
  rewrite overwrite_length, size_opened by (rewrite ?size_opened; fold k; lia).
  repeat split; trivial; try lia.
  f_equal. destruct (Z.ltb_spec L (o + k)); lia.
Qed.

(** A fixed-width read, successful or not, leaves the store, the length
    and the write cursor as they were; a failed one leaves the whole
    instance as it was. *)
Lemma readNumberValue_failure {T : Type}
    (func : Buffer -> number -> Result T) (byteSize : number)
    (offset : value) (s s' : SmartBuffer) (err : Error) :
  _readNumberValue func byteSize offset s = (Throw err, s') -> s' = s.
Proof.
  unfold _readNumberValue, ensureReadable. run.
  destruct offset as [|n|str].
  - destruct (nlt _ _ || ngt _ _); [intros [= _ <-]; reflexivity|].
    destruct (func _ _); [discriminate|]. now intros [= _ <-].
  - destruct (checkOffsetValue (Num n)); [|intros [= _ <-]; reflexivity].
    destruct (nlt _ _ || ngt _ _); [intros [= _ <-]; reflexivity|].
    destruct (func _ _); [discriminate|]. now intros [= _ <-].
  - destruct (checkOffsetValue (Str str)); [|intros [= _ <-]; reflexivity].
    destruct (nlt _ _ || ngt _ _); [intros [= _ <-]; reflexivity|].
    destruct (func _ _); [discriminate|]. now intros [= _ <-].
Qed.

(** A fixed-width write at a negative offset, whole or not, fails before
    anything is assigned. *)
Lemma writeNumberValue_negative {T : Type}
    (func : Buffer -> T -> number -> Result Buffer) (byteSize : number)
    (v : T) (n : number) (s : SmartBuffer) :
  nlt n (Int 0) = true ->
  _writeNumberValue func byteSize v (Num n) s
  = (Throw INVALID_WRITE_BEYOND_BOUNDS, s).
Proof. intros Hn. unfold _writeNumberValue. run. now rewrite Hn. Qed.

(** The cursor setters fail, on an offset that is not a whole number
    within the logical length, before anything is assigned. *)
Lemma set_readOffset_failure (offset : value) (s s' : SmartBuffer)
    (err : Error) :
  set_readOffset offset s = (Throw err, s') -> s' = s.
Proof.
  unfold set_readOffset. run.
  destruct (checkOffsetValue offset); [|now intros [= _ <-]].
  destruct (checkTargetOffset _ _); [discriminate | now intros [= _ <-]].
Qed.

Lemma set_writeOffset_failure (offset : value) (s s' : SmartBuffer)
    (err : Error) :
  set_writeOffset offset s = (Throw err, s') -> s' = s.
Proof.
  unfold set_writeOffset. run.
  destruct (checkOffsetValue offset); [|now intros [= _ <-]].
  destruct (checkTargetOffset _ _); [discriminate | now intros [= _ <-]].
Qed.

(** A cursor set by its setter is within the logical length. *)
Lemma set_readOffset_within (offset : value) (L : Z) (s s' : SmartBuffer) :
  length s = Int L ->
  set_readOffset offset s = (Ok tt, s') ->
  exists q : Q, _readOffset s' = Fin q /\ (0 <= q)%Q /\ (q <= inject_Z L)%Q.
Proof.
  intros HL. unfold set_readOffset. run.
  destruct (checkOffsetValue offset) as [[]|] eqn:Hc; [|discriminate].
  apply checkOffsetValue_Ok in Hc as (q & -> & Hint & Hq).
  cbn [ToNumber]. unfold checkTargetOffset. rewrite HL.
  destruct (nlt (Fin q) (Int 0)) eqn:H0; cbn [orb]; [discriminate|].
  destruct (ngt (Fin q) (Int L)) eqn:H1; [discriminate|].
  intros [= <-]. fields. exists q. split; [reflexivity|].
  unfold nlt, ngt, nlt, Int, Qltb in H0, H1.
  apply negb_false_iff in H0, H1. apply Qle_bool_iff in H0, H1.
  split; assumption.
Qed.

End Invariant.

(** * The claims of the specification *)

(** ** Insertion *)

Section Insertion.
Context {P : Platform}.

(** C1 (as amended): for every instance within its invariant, of logical
    length [L], and every insert of acceptable data of [k] bytes at an
    offset [o] with [o + k <= L] or [o = L], the insert goes through, the
    logical length becomes [L + k], the live bytes before [o] are
    unchanged, the live bytes from [o + k] on are the former live bytes
    from [o] on, and the write cursor advances by [k]. *)
Theorem insertion_within_length (d : Data) (o L : Z) (s : SmartBuffer) :
  invariant s -> acceptable d -> length s = Int L -> 0 <= o ->
  o + Buffer.size (payload d s) <= L \/ o = L ->
  insertion_correct s d o.
Proof.
  intros (L' & w & r & HL & HW & HR & Hr & Hw & Hcap) Hd HL' Ho Hrange.
  destruct s as [len e b W R]. cbn [length _buff _writeOffset _readOffset] in *.
  subst len W R. apply Int_inj in HL'. subst L'.
  set (bytes := payload d (mkSmartBuffer (Int L) e b (Int w) (Int r))) in *.
  set (k := Buffer.size bytes) in *.
  assert (Hk : 0 <= k) by apply size_nonneg.
  assert (HoL : o <= L) by lia.
  pose proof (size_grow_ge b (L + k)) as [Hg _].
  pose proof (insert_at d o L e b (Int w) (Int r) Hd Ho Hcap) as Hrun.
  cbv zeta in Hrun. fold bytes in Hrun. fold k in Hrun.
  unfold insertion_correct. fold bytes. fold k. rewrite Hrun by lia.
  eexists. split; [reflexivity|].
  assert (Hlen : (if L <? o + k then o + k else L + k) = L + k)
    by (destruct (Z.ltb_spec L (o + k)); lia).
  rewrite Hlen. unfold inserted. fields. rewrite !nadd_Int.
  assert (Hsize : Buffer.size (Buffer.overwrite (opened b L o k) o bytes)
                  = Buffer.size (grow b (L + k))).
  { rewrite overwrite_length; [apply size_opened; lia | lia |].
    rewrite size_opened by lia. fold k. lia. }
  rewrite (live_Int (L + k)) by lia. rewrite (live_Int L) by lia.
  assert (Hsplice := splice b bytes L o (conj Ho HoL) Hcap). fold k in Hsplice.
  rewrite Hsplice.
  assert (Hp : List.length (firstn (Z.to_nat o) b) = Z.to_nat o).
  { rewrite length_firstn. unfold Buffer.size in *. lia. }
  repeat split.
  - rewrite firstn_app, Hp, Nat.sub_diag, firstn_all2 by lia.
    cbn [firstn]. rewrite app_nil_r, firstn_firstn. f_equal. lia.
  - rewrite app_assoc, skipn_app.
    rewrite skipn_all2 by (rewrite length_app, Hp; unfold k, Buffer.size; lia).
    cbn [app]. rewrite length_app, Hp.
    replace (Z.to_nat (o + k) - (Z.to_nat o + List.length bytes))%nat
      with 0%nat by (unfold k, Buffer.size; lia).
    reflexivity.
Qed.

End Insertion.

Lemma insertion_within_length_witness :
  insertion_correct (P := sample) five_of_eight (AnInteger UInt16BE 0x6699) 2.
Proof.
  apply (insertion_within_length (P := sample) (AnInteger UInt16BE 0x6699) 2 5
           five_of_eight).
  - exists 5, 5, 0. repeat split; vm_compute; congruence.
  - split; [split; vm_compute; congruence | reflexivity].
  - reflexivity.
  - lia.
  - left. vm_compute. congruence.
Defined.

(** C1 (counterexample): an instance within its invariant, of logical
    length 2 on a store of eight bytes, and the insert of one byte at
    offset 4: the insert goes through and leaves the logical length at
    5, not at 3. *)
Lemma insertion_past_length_counterexample :
  invariant two_of_eight /\
  acceptable (P := sample) (AnInteger UInt8 9) /\
  ~ insertion_correct (P := sample) two_of_eight (AnInteger UInt8 9) 4.
Proof.
  split; [|split].
  - exists 2, 2, 0. repeat split; vm_compute; congruence.
  - split; [split; vm_compute; congruence | reflexivity].
  - intros (s' & Hrun & Hlen & _).
    vm_compute in Hrun. injection Hrun as <-.
    vm_compute in Hlen. discriminate Hlen.
Qed.

(** ** Round trip *)

Section RoundTrip.
Context {P : Platform}.

Lemma representable_bounds (sh : IntegerShape) :
  representable sh 0 /\
  representable sh (Buffer.minValue (layout sh)) /\
  representable sh (Buffer.maxValue (layout sh)).
Proof. destruct sh; vm_compute; intuition congruence. Qed.

(** Writing a value at the write cursor and reading the same shape at a
    read cursor that stood at the same place gives the value back. *)
Lemma numeric_roundtrip {T : Type}
    (wfunc : Buffer -> T -> number -> Result Buffer)
    (rfunc : Buffer -> number -> Result T)
    (v : T) (bytes : list byte) (dec : list byte -> T) (s : SmartBuffer) :
  stores wfunc v bytes -> loads rfunc (List.length bytes) dec ->
  dec bytes = v ->
  invariant s -> _readOffset s = _writeOffset s ->
  exists s' : SmartBuffer,
    (_writeNumberValue wfunc (Int (Buffer.size bytes)) v undefined;;
     _readNumberValue rfunc (Int (Buffer.size bytes)) undefined) s
    = (Ok v, s').
Proof.
  intros Hst Hld Hdec (L & w & r & HL & HW & HR & Hr & Hw & Hcap) Hrw.
  destruct s as [len e b W R]. cbn [length _buff _writeOffset _readOffset] in *.
  subst len W R. apply Int_inj in Hrw. subst r.
  pose proof (size_nonneg bytes) as Hk.
  pose proof (size_grow_ge b (w + Buffer.size bytes)) as [Hg1 Hg2].
  unfold bind at 1.
  rewrite (writeNumberValue_rel wfunc v bytes Hst) by lia.
  rewrite (readNumberValue_rel rfunc bytes dec Hld).
  - rewrite overwrite_read by lia. rewrite Hdec. eauto.
  - lia.
  - lia.
  - rewrite overwrite_length by lia. lia.
Qed.

(** C4: for every fixed-width shape the platform supports, integer or
    float, big- or little-endian, and every value the shape represents,
    among them 0 and the least and the greatest value of an integer
    shape, the relative write of the value followed by the relative read
    of the shape, the read cursor standing where the write cursor stood,
    returns exactly the value. *)
Theorem write_read_roundtrip :
  (forall (sh : IntegerShape) (v : Z) (s : SmartBuffer),
      invariant s -> _readOffset s = _writeOffset s ->
      representable sh v ->
      supported sh false = true -> supported sh true = true ->
      exists s' : SmartBuffer,
        (writeInteger sh v undefined;; readInteger sh undefined) s = (Ok v, s'))
  /\ (forall (sh : FloatShape) (v : spec_float) (s : SmartBuffer),
      invariant s -> _readOffset s = _writeOffset s ->
      float_representable sh v ->
      exists s' : SmartBuffer,
        (writeFloat sh v undefined;; readFloat sh undefined) s = (Ok v, s'))
  /\ (forall sh : IntegerShape,
      representable sh 0 /\
      representable sh (Buffer.minValue (layout sh)) /\
      representable sh (Buffer.maxValue (layout sh))).
Proof.
  split; [|split].
  - intros sh v s Hinv Hrw Hv Hw Hr.
    destruct (numeric_roundtrip (Buffer.writeInteger (layout sh))
                (Buffer.readInteger (layout sh)) v
                (Buffer.bytes_of_int (layout sh) v)
                (Buffer.int_of_bytes (layout sh)) s) as [s' Hs']; trivial.
    + now apply writeInteger_stores.
    + rewrite bytes_of_int_length. apply readInteger_loads.
    + now apply int_of_bytes_of_int.
    + exists s'. rewrite <- Hs'. unfold bind.
      rewrite writeInteger_run by trivial.
      destruct (_writeNumberValue _ _ _ _ s) as [[[]|err] s1]; [|reflexivity].
      now apply readInteger_run.
  - intros sh v s Hinv Hrw Hv.
    destruct (numeric_roundtrip
                (Buffer.writeFloating (format sh) (bigEndian sh))
                (Buffer.readFloating (format sh) (bigEndian sh)) v
                (Buffer.bytes_of_float (format sh) (bigEndian sh) v)
                (Buffer.float_of_bytes (format sh) (bigEndian sh)) s)
      as [s' Hs']; trivial.
    + apply writeFloating_stores.
    + rewrite bytes_of_float_length. apply readFloating_loads.
    + now apply float_shape_roundtrip.
    + exists s'. rewrite <- Hs'. unfold bind.
      rewrite writeFloat_run.
      destruct (_writeNumberValue _ _ _ _ s) as [[[]|err] s1]; [|reflexivity].
      apply readFloat_run.
  - apply representable_bounds.
Qed.

End RoundTrip.

Lemma write_read_roundtrip_witness :
  (exists s' : SmartBuffer,
      (writeInteger (P := sample) Int16LE (-32768) undefined;;
       readInteger (P := sample) Int16LE undefined) empty_of_four
      = (Ok (-32768), s'))
  /\ (exists s' : SmartBuffer,
      (writeFloat (P := sample) FloatBE (S754_finite false 10066330 (-23))
         undefined;;
       readFloat FloatBE undefined) empty_of_four
      = (Ok (S754_finite false 10066330 (-23)), s')).
Proof.
  assert (Hinv : invariant empty_of_four).
  { exists 0, 0, 0. repeat split; vm_compute; congruence. }
  split.
  - apply (proj1 (write_read_roundtrip (P := sample)) Int16LE (-32768)
             empty_of_four); try exact Hinv; try reflexivity.
    split; vm_compute; congruence.
  - apply (proj1 (proj2 (write_read_roundtrip (P := sample))) FloatBE
             (S754_finite false 10066330 (-23)) empty_of_four);
      try exact Hinv; reflexivity.
Defined.

(** ** Growth and the write cursor *)

Section GrowthAndCursor.
Context {P : Platform}.

(** C5: when the requested minimum length [m] is above the capacity [C]
    of the store, the growth step succeeds and leaves a store of size
    exactly [max m (floor (C * 3 / 2) + 1)] whose first [C] bytes are the
    whole former store; nothing else of the instance changes. *)
Theorem growth_step (m : Z) (s : SmartBuffer) :
  Buffer.size (_buff s) < m ->
  exists b' : Buffer,
    _ensureCapacity (Int m) s = (Ok tt, with_buff b' s) /\
    Buffer.size b' = Z.max m (Buffer.size (_buff s) * 3 / 2 + 1) /\
    firstn (List.length (_buff s)) b' = _buff s.
Proof.
  intros Hm. exists (grow (_buff s) m). split; [|split].
  - apply ensureCapacity_Int.
  - rewrite size_grow. destruct (Z.ltb_spec (Buffer.size (_buff s)) m); [|lia].
    reflexivity.
  - apply grow_prefix.
Qed.

(** C6: a write of acceptable data of [k] bytes at an explicit offset
    [o], not negative, goes through and leaves the write cursor at the
    greater of its former value and [o + k], and the logical length at
    the greater of its former value and [o + k]; so on an instance of
    length 5 with the write cursor at 5, two bytes written at offset 0
    leave the write cursor at 5, and two bytes written at offset 10 make
    the length 12 and the write cursor 12. *)
Theorem write_at_offset_cursor (d : Data) (o L w : Z) (s : SmartBuffer) :
  acceptable d -> 0 <= o -> length s = Int L -> _writeOffset s = Int w ->
  let k := Buffer.size (payload d s) in
  exists s' : SmartBuffer,
    write d (Num (Int o)) s = (Ok tt, s') /\
    _writeOffset s' = Int (Z.max w (o + k)) /\
    length s' = Int (Z.max L (o + k)) /\
    (L = 5 -> w = 5 -> k = 2 -> o = 0 -> _writeOffset s' = Int 5) /\
    (L = 5 -> w = 5 -> k = 2 -> o = 10 ->
     length s' = Int 12 /\ _writeOffset s' = Int 12).
Proof.
  intros Hd Ho HL HW k.
  destruct s as [len e b W R]. cbn [length _writeOffset] in HL, HW.
  subst len W. subst k. rewrite write_at by trivial.
  eexists. split; [reflexivity|]. fields. rewrite Math_max_Int.
  split; [reflexivity|]. split; [reflexivity|].
  split; [intros -> -> Hk -> | intros -> -> Hk ->]; rewrite Hk.
  - reflexivity.
  - split; reflexivity.
Qed.

End GrowthAndCursor.

Lemma growth_step_witness :
  exists b' : Buffer,
    _ensureCapacity (P := sample) (Int 6) empty_of_four
    = (Ok tt, with_buff b' empty_of_four) /\
    Buffer.size b' = Z.max 6 (Buffer.size (_buff empty_of_four) * 3 / 2 + 1) /\
    firstn (List.length (_buff empty_of_four)) b' = _buff empty_of_four.
Proof.
  apply (growth_step (P := sample) 6 empty_of_four). vm_compute. reflexivity.
Defined.

Lemma write_at_offset_cursor_witness :
  exists s' : SmartBuffer,
    write (P := sample) (AnInteger UInt16BE 0x6699) (Num (Int 10)) five_of_eight
    = (Ok tt, s') /\
    _writeOffset s' = Int 12 /\ length s' = Int 12.
Proof.
  destruct (write_at_offset_cursor (P := sample) (AnInteger UInt16BE 0x6699)
              10 5 5 five_of_eight) as (s' & Hrun & _ & _ & _ & Hten).
  - split; [split; vm_compute; congruence | reflexivity].
  - lia.
  - reflexivity.
  - reflexivity.
  - exists s'. split; [exact Hrun|].
    destruct Hten as [Hl Hw]; try reflexivity. split; assumption.
Defined.

(** ** Clamped reads *)

Section Reads.
Context {P : Platform}.

(** The live bytes from [r] up to [stop], as a slice of the store. *)
Lemma live_run (b : Buffer) (L r stop : Z) :
  0 <= r <= stop -> stop <= L -> L <= Buffer.size b ->
  Buffer.slice b (Int r) (Int stop)
  = firstn (Z.to_nat (stop - r)) (skipn (Z.to_nat r) (firstn (Z.to_nat L) b)).
Proof.
  intros Hr Hs HL. rewrite slice_Int by lia.
  rewrite !Z.min_l by lia.
  rewrite skipn_firstn_comm, firstn_firstn. f_equal. lia.
Qed.

Lemma checked_encoding (encoding : value) :
  encoding_checked encoding ->
  match encoding with
  | undefined => True
  | _ => checkEncoding encoding = Ok tt
  end.
Proof.
  destruct encoding as [| |e]; cbn; trivial; [contradiction|].
  now intros ->.
Qed.


End Reads.


(** ** Where the code departs from the specification *)

Section Departures.
Context {P : Platform}.

(** C2 (the code at the failing input): the instance wrapping the single
    byte [0x63] is within the invariant; [readStringNT] and
    [readBufferNT] on it go through and leave the read cursor at 2, the
    logical length being 1, so the cursor invariant no longer holds. *)
Theorem readNT_leaves_cursor_past_length :
  invariant only_c /\
  (exists v, readStringNT (P := sample) undefined only_c
             = (Ok v, with_readOffset (Int 2) only_c)) /\
  (exists v, readBufferNT only_c = (Ok v, with_readOffset (Int 2) only_c)) /\
  ~ cursors_within (with_readOffset (Int 2) only_c).
Proof.
  split; [|split; [|split]].
  - exists 1, 0, 0. repeat split; vm_compute; congruence.
  - eexists. vm_compute. reflexivity.
  - eexists. vm_compute. reflexivity.
  - intros (L & w & r & HL & _ & HR & Hr & _).
    change (Int 1 = Int L) in HL. change (Int 2 = Int r) in HR.
    apply Int_inj in HL. apply Int_inj in HR. lia.
Qed.

(** C3 (the code at the input of the claim): on the bytes
    [0x61, 0x62, 0x00, 0x63] the first [readStringNT] returns "ab" and
    leaves the read cursor at 3; the second returns "c" and leaves the
    read cursor at 5, one past the logical length 4. *)
Theorem readStringNT_twice :
  readStringNT (P := sample) undefined ab_nul_c
  = (Ok "ab"%string, with_readOffset (Int 3) ab_nul_c) /\
  readStringNT (P := sample) undefined (with_readOffset (Int 3) ab_nul_c)
  = (Ok "c"%string, with_readOffset (Int 5) ab_nul_c) /\
  length ab_nul_c = Int 4.
Proof. repeat split; vm_compute; reflexivity. Qed.

(** C7 (the code at the failing input): on an empty instance,
    [writeBuffer] of three bytes and [writeString] of three characters
    at the explicit offset -1 both throw, and both leave the logical
    length at 2 where it was 0. *)
Theorem write_at_negative_offset_mutates :
  writeBuffer (P := sample) [Byte.x01; Byte.x02; Byte.x03] (Num (Int (-1)))
    empty_of_four
  = (Throw RangeError, with_length (Int 2) empty_of_four) /\
  writeString (P := sample) "abc" (Num (Int (-1))) undefined empty_of_four
  = (Throw RangeError, with_length (Int 2) empty_of_four) /\
  length empty_of_four = Int 0.
Proof. repeat split; vm_compute; reflexivity. Qed.

(** An absent size, as the constructor sees the sizes 0 and NaN: the
    default store. *)
Lemma default_store (size : number) :
  truthy size = false ->
  new (Object undefined (Num size) (AValue undefined))
  = Ok (with_buff (map unsafe_byte (seq 0 (Z.to_nat 4096))) initial).
Proof.
  intros Hfalsy. unfold new, constructor.
  cbn [isSmartBufferOptions is_defined orb value_truthy buff_truthy].
  rewrite Hfalsy. unfold bind, ret, lift, assign, DEFAULT_SMARTBUFFER_SIZE.
  now rewrite allocUnsafe_Int by lia.
Qed.

(** C9 (the code at the failing input): constructing with size 0, or
    with size NaN, does not fail: it makes an empty instance on a store
    of the default 4096 bytes. *)
Theorem constructor_accepts_size_zero :
  (exists s : SmartBuffer,
      new (Object undefined (Num (Int 0)) (AValue undefined)) = Ok s /\
      length s = Int 0 /\ Buffer.size (_buff s) = 4096) /\
  (exists s : SmartBuffer,
      new (Object undefined (Num NaN) (AValue undefined)) = Ok s /\
      length s = Int 0 /\ Buffer.size (_buff s) = 4096).
Proof.
  assert (Hsize : Buffer.size (map unsafe_byte (seq 0 (Z.to_nat 4096))) = 4096).
  { unfold Buffer.size. rewrite length_map, length_seq. lia. }
  split; eexists; (split; [apply default_store; reflexivity|]);
    split; [reflexivity | exact Hsize | reflexivity | exact Hsize].
Qed.

(** The sizes the constructor does refuse: the numbers other than 0 and
    NaN that are not whole, finite and positive. *)
Lemma constructor_rejects_size (n : number) (buff : AnyBuffer) :
  truthy n = true ->
  isFiniteInteger (Num n) && ngt n (Int 0) = false ->
  new (Object undefined (Num n) buff) = Throw INVALID_SMARTBUFFER_SIZE.
Proof.
  intros Ht Hbad. unfold new, constructor. cbn [isSmartBufferOptions is_defined orb].
  unfold bind, ret. cbn [value_truthy ToNumber]. rewrite Ht, Hbad. reflexivity.
Qed.

Lemma constructor_rejects_examples (buff : AnyBuffer) :
  new (Object undefined (Num (Int (-1))) buff) = Throw INVALID_SMARTBUFFER_SIZE /\
  new (Object undefined (Num (Fin (3 # 2))) buff) = Throw INVALID_SMARTBUFFER_SIZE /\
  new (Object undefined (Num PInf) buff) = Throw INVALID_SMARTBUFFER_SIZE /\
  new (Object undefined (Num NInf) buff) = Throw INVALID_SMARTBUFFER_SIZE.
Proof. repeat split; apply constructor_rejects_size; reflexivity. Qed.

(** C10 (the code at the failing input): on an empty instance with a
    store of four bytes, the insert of one byte at offset 10 is not
    accepted: it throws, and leaves the logical length at 11, above the
    capacity. *)
Theorem insert_beyond_capacity_throws :
  invariant empty_of_four /\
  acceptable (P := sample) (AnInteger UInt8 7) /\
  insert (P := sample) (AnInteger UInt8 7) (Num (Int 10)) empty_of_four
  = (Throw RangeError, with_length (Int 11) empty_of_four) /\
  insert (P := sample) (AString "a" undefined) (Num (Int 10)) empty_of_four
  = (Throw RangeError, with_length (Int 11) empty_of_four).
Proof.
  split; [|split; [|split]].
  - exists 0, 0, 0. repeat split; vm_compute; congruence.
  - split; [split; vm_compute; congruence | reflexivity].
  - vm_compute. reflexivity.
  - vm_compute. reflexivity.
Qed.

(** An insert past the logical length whose data fit the store after
    the growth step is accepted: the logical length becomes [o + k] and
    the store below [o], the gap from [L] to [o] included, is the grown
    store as it was. *)
Lemma insert_past_length (d : Data) (o L : Z) e b W R :
  acceptable d -> 0 <= L < o -> L <= Buffer.size b ->
  let s := mkSmartBuffer (Int L) e b W R in
  let k := Buffer.size (payload d s) in
  o + k <= Buffer.size (grow b (L + k)) ->
  exists b' : Buffer,
    insert d (Num (Int o)) s
    = (Ok tt, mkSmartBuffer (Int (o + k)) e b' (nadd W (Int k)) R) /\
    firstn (Z.to_nat o) b' = firstn (Z.to_nat o) (grow b (L + k)).
Proof.
  intros Hd HL Hcap s k Hfit. subst s k.
  rewrite insert_at by (trivial; lia).
  set (k := Buffer.size (payload d _)) in *.
  pose proof (size_nonneg (payload d (mkSmartBuffer (Int L) e b W R))) as Hk.
  fold k in Hk.
  eexists. split.
  - destruct (Z.ltb_spec L (o + k)); [reflexivity | lia].
  - unfold opened. destruct (Z.ltb_spec o L); [lia|].
    apply overwrite_prefix; lia.
Qed.

End Departures.

(** * Further properties of the code *)

(** ** The checks of utils.ts *)

Lemma checkOffsetOrLengthValue_Ok (v : value) (offset : bool) :
  checkOffsetOrLengthValue v offset = Ok tt <-> whole_and_not_negative v.
Proof.
  unfold checkOffsetOrLengthValue, whole_and_not_negative.
  destruct v as [|[q| | |]|]; simpl;
    try (split; [discriminate | intros (q' & E & _); discriminate]).
  unfold Qltb.
  destruct (Qeq_bool (inject_Z (Qfloor q)) q) eqn:E; simpl.
  - apply Qeq_bool_iff in E.
    destruct (Qle_bool (inject_Z 0) q) eqn:L; simpl.
    + split; [|reflexivity]. intros _. exists q. repeat split; trivial.
      apply Qle_bool_iff in L. rewrite <- E in L.
      now rewrite Zle_Qle.
    + split; [discriminate|]. intros (q' & E' & _ & Hq). injection E' as <-.
      assert (Qle_bool (inject_Z 0) q = true); [|congruence].
      apply Qle_bool_iff. rewrite <- E. now rewrite <- Zle_Qle.
  - split; [discriminate|]. intros (q' & E' & Hq & _). injection E' as <-.
    apply Qeq_bool_iff in Hq. congruence.
Qed.

Lemma checkOffsetValue_refused (n : number) :
  ~ whole_and_not_negative (Num n) ->
  checkOffsetValue (Num n) = Throw INVALID_OFFSET.
Proof.
  intros Hbad.
  pose proof (checkOffsetOrLengthValue_Ok (Num n) true) as Ho.
  unfold checkOffsetValue, checkOffsetOrLengthValue in *.
  destruct (negb (isFiniteInteger (Num n)) || nlt n (Int 0)); [reflexivity|].
  exfalso. apply Hbad. now apply Ho.
Qed.

(** X1: [checkOffsetValue] and [checkLengthValue] accept exactly the
    arguments that are numbers, finite, whole and not negative; an
    argument that is not a number is refused with the NON_NUMBER error of
    its kind, and a number that is refused with INVALID_OFFSET or
    INVALID_LENGTH. *)
Theorem offset_and_length_checks (v : value) :
  (checkOffsetValue v = Ok tt <-> whole_and_not_negative v) /\
  (checkLengthValue v = Ok tt <-> whole_and_not_negative v) /\
  ((forall n : number, v <> Num n) ->
   checkOffsetValue v = Throw INVALID_OFFSET_NON_NUMBER /\
   checkLengthValue v = Throw INVALID_LENGTH_NON_NUMBER) /\
  (forall n : number, v = Num n -> ~ whole_and_not_negative v ->
   checkOffsetValue v = Throw INVALID_OFFSET /\
   checkLengthValue v = Throw INVALID_LENGTH).
Proof.
  split; [apply checkOffsetOrLengthValue_Ok|].
  split; [apply checkOffsetOrLengthValue_Ok|].
  split.
  - intros Hnn. destruct v as [|n|str]; [split; reflexivity | | split; reflexivity].
    now destruct (Hnn n).
  - intros n -> Hbad.
    pose proof (checkOffsetOrLengthValue_Ok (Num n) true) as Ho.
    pose proof (checkOffsetOrLengthValue_Ok (Num n) false) as Hl.
    unfold checkOffsetValue, checkLengthValue in *.
    unfold checkOffsetOrLengthValue in *.
    destruct (negb (isFiniteInteger (Num n)) || nlt n (Int 0)).
    + split; reflexivity.
    + exfalso. apply Hbad. now apply Ho.
Qed.

Lemma offset_and_length_checks_witness :
  checkOffsetValue (Str "sdfdf") = Throw INVALID_OFFSET_NON_NUMBER /\
  checkLengthValue (Num NaN) = Throw INVALID_LENGTH /\
  checkLengthValue (Num (Int (-5))) = Throw INVALID_LENGTH /\
  checkOffsetValue (Num (Fin (21 # 2))) = Throw INVALID_OFFSET.
Proof.
  assert (Hbad : forall n, (forall q, n = Fin q ->
              ~ ((inject_Z (Qfloor q) == q)%Q /\ 0 <= Qfloor q)) ->
              ~ whole_and_not_negative (Num n)).
  { intros n H (q & E & H1 & H2). injection E as ->. now apply (H q eq_refl). }
  split; [|split; [|split]].
  - apply (proj1 (proj2 (proj2 (offset_and_length_checks (Str "sdfdf"))))).
    discriminate.
  - apply (proj2 (proj2 (proj2 (offset_and_length_checks (Num NaN)))) NaN eq_refl).
    apply Hbad. discriminate.
  - apply (proj2 (proj2 (proj2 (offset_and_length_checks (Num (Int (-5))))))
             (Int (-5)) eq_refl).
    apply Hbad. intros q [= <-] [_ H]. vm_compute in H. now apply H.
  - apply (proj2 (proj2 (proj2 (offset_and_length_checks (Num (Fin (21 # 2))))))
             (Fin (21 # 2)) eq_refl).
    apply Hbad. intros q [= <-] [H _]. vm_compute in H. discriminate H.
Defined.

(** ** The cursor setters *)

(** X2: on an instance of logical length [L], setting the read cursor
    (or the write cursor) to a whole number [z] fails with
    INVALID_OFFSET when [z] is negative and with INVALID_TARGET_OFFSET
    when [z] is above [L], the instance staying as it was, and otherwise
    sets that cursor to [z] and nothing else. *)
Theorem cursor_setters (z L : Z) (s : SmartBuffer) :
  length s = Int L ->
  set_readOffset (Num (Int z)) s
  = (if z <? 0 then (Throw INVALID_OFFSET, s)
     else if L <? z then (Throw INVALID_TARGET_OFFSET, s)
     else (Ok tt, with_readOffset (Int z) s)) /\
  set_writeOffset (Num (Int z)) s
  = (if z <? 0 then (Throw INVALID_OFFSET, s)
     else if L <? z then (Throw INVALID_TARGET_OFFSET, s)
     else (Ok tt, with_writeOffset (Int z) s)).
Proof.
  intros HL. unfold set_readOffset, set_writeOffset, checkTargetOffset. run.
  rewrite checkOffsetValue_Int. cbn [ToNumber]. rewrite HL, nlt_Int, ngt_Int.
  destruct (Z.ltb_spec z 0); [split; reflexivity|]. cbn [orb].
  destruct (Z.ltb_spec L z); split; reflexivity.
Qed.

Lemma cursor_setters_witness :
  set_readOffset (Num (Int 10000)) five_of_eight
  = (Throw INVALID_TARGET_OFFSET, five_of_eight) /\
  set_writeOffset (Num (Int 3)) five_of_eight
  = (Ok tt, with_writeOffset (Int 3) five_of_eight).
Proof.
  split.
  - apply (proj1 (cursor_setters 10000 5 five_of_eight eq_refl)).
  - apply (proj2 (cursor_setters 3 5 five_of_eight eq_refl)).
Defined.

(** ** Facts about lists and the store *)

Section StoreFacts.
Context {P : Platform}.

Lemma overwrite_suffix (b : Buffer) (o : Z) (bs : list byte) :
  0 <= o -> o + Buffer.size bs <= Buffer.size b ->
  skipn (Z.to_nat (o + Buffer.size bs)) (Buffer.overwrite b o bs)
  = skipn (Z.to_nat (o + Buffer.size bs)) b.
Proof.
  unfold Buffer.overwrite, Buffer.size. intros Ho Hb.
  rewrite skipn_app, length_firstn.
  rewrite skipn_all2 by (rewrite length_firstn; lia). cbn [app].
  rewrite skipn_app.
  rewrite skipn_all2 by lia. cbn [app].
  replace (Z.to_nat (o + Z.of_nat (List.length bs))
           - Nat.min (Z.to_nat o) (List.length b) - List.length bs)%nat
    with 0%nat by lia.
  cbn [skipn]. f_equal. lia.
Qed.

Lemma overwrite_upto (b : Buffer) (o : Z) (bs : list byte) :
  0 <= o -> o <= Buffer.size b ->
  firstn (Z.to_nat (o + Buffer.size bs)) (Buffer.overwrite b o bs)
  = firstn (Z.to_nat o) b ++ bs.
Proof.
  unfold Buffer.overwrite, Buffer.size. intros Ho Hb.
  rewrite app_assoc, firstn_app.
  rewrite firstn_all2 by (rewrite length_app, length_firstn; lia).
  replace (_ - _)%nat with 0%nat by (rewrite length_app, length_firstn; lia).
  cbn [firstn]. apply app_nil_r.
Qed.

Lemma nth_firstn_below (l : list byte) (n i : nat) :
  (i < n)%nat -> nth_error (firstn n l) i = nth_error l i.
Proof.
  intros Hi. rewrite nth_error_firstn.
  destruct (Nat.ltb_spec i n); [reflexivity | lia].
Qed.

Lemma overwrite_nth (b : Buffer) (o : Z) (bs : list byte) (j : nat) :
  0 <= o -> o + Buffer.size bs <= Buffer.size b ->
  nth_error (Buffer.overwrite b o bs) j
  = if (Z.to_nat o <=? j)%nat && (j <? Z.to_nat o + List.length bs)%nat
    then nth_error bs (j - Z.to_nat o)
    else nth_error b j.
Proof.
  unfold Buffer.overwrite, Buffer.size. intros Ho Hb.
  assert (Hp : List.length (firstn (Z.to_nat o) b) = Z.to_nat o)
    by (rewrite length_firstn; lia).
  destruct (Nat.leb_spec (Z.to_nat o) j) as [Hle|Hlt]; cbn [andb].
  - rewrite nth_error_app2 by lia. rewrite Hp.
    destruct (Nat.ltb_spec j (Z.to_nat o + List.length bs)) as [Hin|Hout].
    + apply nth_error_app1. lia.
    + rewrite nth_error_app2 by lia. rewrite nth_error_skipn. f_equal. lia.
  - rewrite nth_error_app1 by lia. apply nth_firstn_below. lia.
Qed.

Lemma window_of_nth (l v : list byte) (o : nat) :
  (o + List.length v <= List.length l)%nat ->
  (forall i : nat, (i < List.length v)%nat ->
     nth_error l (o + i) = nth_error v i) ->
  firstn (List.length v) (skipn o l) = v.
Proof.
  intros Hfit Hnth. apply nth_error_ext. intros i.
  destruct (Nat.ltb_spec i (List.length v)) as [Hi|Hi].
  - rewrite nth_firstn_below by lia. rewrite nth_error_skipn. now apply Hnth.
  - rewrite (proj2 (nth_error_None v i)) by lia.
    apply nth_error_None. rewrite length_firstn. lia.
Qed.

Lemma window_prefix (l : list byte) (o k : nat) :
  firstn k (skipn o l) = firstn k (skipn o (firstn (o + k) l)).
Proof.
  rewrite skipn_firstn_comm, firstn_firstn.
  f_equal. lia.
Qed.

Lemma grow_firstn (b : Buffer) (m : Z) (n : nat) :
  (n <= List.length b)%nat -> firstn n (grow b m) = firstn n b.
Proof.
  intros Hn. destruct (grow_app b m) as [junk ->].
  rewrite firstn_app. replace (n - List.length b)%nat with 0%nat by lia.
  cbn [firstn]. apply app_nil_r.
Qed.

Lemma grow_enough (b : Buffer) (m : Z) : m <= Buffer.size b -> grow b m = b.
Proof. intros H. unfold grow. destruct (Z.ltb_spec (Buffer.size b) m); [lia | reflexivity]. Qed.

Lemma grow_nth (b : Buffer) (m : Z) (j : nat) :
  (j < List.length b)%nat -> nth_error (grow b m) j = nth_error b j.
Proof.
  intros Hj. destruct (grow_app b m) as [junk ->]. now apply nth_error_app1.
Qed.

Lemma payload_encoding (d : Data) (s s' : SmartBuffer) :
  _encoding s' = _encoding s -> payload d s' = payload d s.
Proof. intros E. destruct d; cbn [payload]; trivial. now rewrite E. Qed.

End StoreFacts.

(** ** Fixed-width reads *)

Section FixedReads.
Context {P : Platform}.

Lemma readNumberValue_at {T : Type} (func : Buffer -> number -> Result T)
    (n : nat) (dec : list byte -> T) (o L : Z) e b W R :
  loads func n dec ->
  0 <= o -> o + Z.of_nat n <= L -> L <= Buffer.size b ->
  _readNumberValue func (Int (Z.of_nat n)) (Num (Int o))
    (mkSmartBuffer (Int L) e b W R)
  = (Ok (dec (firstn n (skipn (Z.to_nat o) b))),
     mkSmartBuffer (Int L) e b W R).
Proof.
  intros Hloads Ho Hn HL. unfold _readNumberValue, ensureReadable. run. fields.
  rewrite checkOffsetValue_Int. destruct (Z.ltb_spec o 0); [lia|].
  cbn [ToNumber]. fields. rewrite nlt_Int, nadd_Int, ngt_Int.
  destruct (Z.ltb_spec o 0); [lia|].
  destruct (Z.ltb_spec L (o + Z.of_nat n)); [lia|]. cbn [orb]. fields.
  now rewrite Hloads by lia.
Qed.

Lemma readNumberValue_cursor {T : Type} (func : Buffer -> number -> Result T)
    (n : nat) (dec : list byte -> T) (r L : Z) e b W :
  loads func n dec ->
  0 <= r -> r + Z.of_nat n <= L -> L <= Buffer.size b ->
  _readNumberValue func (Int (Z.of_nat n)) undefined
    (mkSmartBuffer (Int L) e b W (Int r))
  = (Ok (dec (firstn n (skipn (Z.to_nat r) b))),
     mkSmartBuffer (Int L) e b W (Int (r + Z.of_nat n))).
Proof.
  intros Hloads Hr Hn HL. unfold _readNumberValue, ensureReadable. run. fields.
  rewrite nlt_Int, nadd_Int, ngt_Int.
  destruct (Z.ltb_spec r 0); [lia|].
  destruct (Z.ltb_spec L (r + Z.of_nat n)); [lia|]. cbn [orb]. fields.
  rewrite Hloads by lia. fields. now rewrite nadd_Int.
Qed.

Lemma readNumberValue_beyond {T : Type} (func : Buffer -> number -> Result T)
    (k o L : Z) (offset : value) e b W R :
  offset = undefined /\ R = Int o \/ offset = Num (Int o) ->
  0 <= o -> L < o + k ->
  _readNumberValue func (Int k) offset (mkSmartBuffer (Int L) e b W R)
  = (Throw INVALID_READ_BEYOND_BOUNDS, mkSmartBuffer (Int L) e b W R).
Proof.
  intros Hoff Ho Hk. unfold _readNumberValue, ensureReadable. run. fields.
  destruct Hoff as [[-> ->]| ->].
  - fields. rewrite nlt_Int, nadd_Int, ngt_Int.
    destruct (Z.ltb_spec o 0); [lia|].
    destruct (Z.ltb_spec L (o + k)); [reflexivity | lia].
  - rewrite checkOffsetValue_Int. destruct (Z.ltb_spec o 0); [lia|].
    cbn [ToNumber]. fields. rewrite nlt_Int, nadd_Int, ngt_Int.
    destruct (Z.ltb_spec o 0); [lia|].
    destruct (Z.ltb_spec L (o + k)); [reflexivity | lia].
Qed.

Lemma readInteger_unfolded (sh : IntegerShape) (offset : value) s :
  supported sh true = true ->
  readInteger sh offset s
  = _readNumberValue (Buffer.readInteger (layout sh))
      (Int (Z.of_nat (Buffer.int_bytes (layout sh)))) offset s.
Proof.
  intros H. rewrite (readInteger_run sh 0 offset s H).
  unfold Buffer.size. now rewrite bytes_of_int_length.
Qed.

Lemma readFloat_unfolded (sh : FloatShape) (offset : value) s :
  readFloat sh offset s
  = _readNumberValue (Buffer.readFloating (format sh) (bigEndian sh))
      (Int (Z.of_nat (Buffer.float_bytes (format sh)))) offset s.
Proof.
  rewrite (readFloat_run sh S754_nan offset s).
  unfold Buffer.size. now rewrite bytes_of_float_length.
Qed.

(** X3: a fixed-width read of a field that lies within the logical
    length returns the value the bytes of the store at that place
    encode.  At an explicit offset [o], whole and not negative, it
    leaves the instance, the read cursor included, exactly as it was; at
    the read cursor it moves the read cursor on by the width of the
    field and changes nothing else. *)
Theorem read_within_length (o L : Z) e b W R :
  0 <= o -> L <= Buffer.size b ->
  let s := mkSmartBuffer (Int L) e b W R in
  (forall sh : IntegerShape,
      supported sh true = true ->
      let k := Buffer.int_bytes (layout sh) in
      let v := Buffer.int_of_bytes (layout sh)
                 (firstn k (skipn (Z.to_nat o) b)) in
      o + Z.of_nat k <= L ->
      readInteger sh (Num (Int o)) s = (Ok v, s) /\
      (R = Int o ->
       readInteger sh undefined s
       = (Ok v, with_readOffset (Int (o + Z.of_nat k)) s))) /\
  (forall sh : FloatShape,
      let k := Buffer.float_bytes (format sh) in
      let v := Buffer.float_of_bytes (format sh) (bigEndian sh)
                 (firstn k (skipn (Z.to_nat o) b)) in
      o + Z.of_nat k <= L ->
      readFloat sh (Num (Int o)) s = (Ok v, s) /\
      (R = Int o ->
       readFloat sh undefined s
       = (Ok v, with_readOffset (Int (o + Z.of_nat k)) s))).
Proof.
  intros Ho HL s. split.
  - intros sh Hs k v Hfit. rewrite !readInteger_unfolded by trivial. split.
    + apply readNumberValue_at; trivial. apply readInteger_loads.
    + intros ->. apply readNumberValue_cursor; trivial. apply readInteger_loads.
  - intros sh k v Hfit. rewrite !readFloat_unfolded. split.
    + apply readNumberValue_at; trivial. apply readFloating_loads.
    + intros ->. apply readNumberValue_cursor; trivial. apply readFloating_loads.
Qed.

(** X4: a fixed-width read whose field would end past the logical
    length, at the read cursor or at an explicit offset that is whole
    and not negative, fails with INVALID_READ_BEYOND_BOUNDS and leaves
    the instance as it was; so does every read on an empty instance. *)
Theorem read_beyond_length_fails (o L : Z) (offset : value) e b W R :
  offset = undefined /\ R = Int o \/ offset = Num (Int o) ->
  0 <= o ->
  let s := mkSmartBuffer (Int L) e b W R in
  (forall sh : IntegerShape,
      supported sh true = true ->
      L < o + Z.of_nat (Buffer.int_bytes (layout sh)) ->
      readInteger sh offset s = (Throw INVALID_READ_BEYOND_BOUNDS, s)) /\
  (forall sh : FloatShape,
      L < o + Z.of_nat (Buffer.float_bytes (format sh)) ->
      readFloat sh offset s = (Throw INVALID_READ_BEYOND_BOUNDS, s)).
Proof.
  intros Hoff Ho s. split.
  - intros sh Hs Hk. rewrite readInteger_unfolded by trivial.
    now apply (readNumberValue_beyond _ _ o).
  - intros sh Hk. rewrite readFloat_unfolded.
    now apply (readNumberValue_beyond _ _ o).
Qed.

(** X5: a fixed-width read that fails, whatever the shape, the offset
    argument and the reason (a wrong offset, a field past the logical
    length, a missing platform capability), leaves the instance exactly
    as it was. *)
Theorem failed_read_changes_nothing (offset : value) (s s' : SmartBuffer)
    (err : Error) :
  (forall sh : IntegerShape,
      readInteger sh offset s = (Throw err, s') -> s' = s) /\
  (forall sh : FloatShape,
      readFloat sh offset s = (Throw err, s') -> s' = s).
Proof.
  split.
  - intros sh.
    assert (Hguard : forall name (m : M Z),
               (forall s0, m s = (Throw err, s0) -> s0 = s) ->
               (lift (bigIntAndBufferInt64Check name);; m) s = (Throw err, s') ->
               s' = s).
    { intros name m Hm. unfold bind, lift.
      destruct (bigIntAndBufferInt64Check name); [apply Hm | now intros [= _ <-]]. }
    destruct sh; cbn [readInteger];
      first [ apply readNumberValue_failure
            | apply Hguard; intros s0; apply readNumberValue_failure ].
  - intros sh. destruct sh; cbn [readFloat]; apply readNumberValue_failure.
Qed.

End FixedReads.

Lemma read_within_length_witness :
  readInteger (P := sample) UInt16BE (Num (Int 1)) five_of_eight
  = (Ok 0x0203, five_of_eight) /\
  readInteger (P := sample) UInt16BE undefined five_of_eight
  = (Ok 0x0102, with_readOffset (Int 2) five_of_eight).
Proof.
  split.
  - apply (proj1 (read_within_length (P := sample) 1 5 "utf8"
                    (_buff five_of_eight) (Int 5) (Int 0)
                    ltac:(lia) ltac:(vm_compute; congruence)) UInt16BE eq_refl).
    vm_compute. congruence.
  - apply (proj1 (read_within_length (P := sample) 0 5 "utf8"
                    (_buff five_of_eight) (Int 5) (Int 0)
                    ltac:(lia) ltac:(vm_compute; congruence)) UInt16BE eq_refl).
    + vm_compute. congruence.
    + reflexivity.
Defined.

Lemma read_beyond_length_fails_witness :
  readInteger (P := sample) UInt32BE undefined empty_of_four
  = (Throw INVALID_READ_BEYOND_BOUNDS, empty_of_four) /\
  readFloat DoubleLE (Num (Int 2)) five_of_eight
  = (Throw INVALID_READ_BEYOND_BOUNDS, five_of_eight).
Proof.
  split.
  - apply (proj1 (read_beyond_length_fails (P := sample) 0 0 undefined "utf8"
                    (_buff empty_of_four) (Int 0) (Int 0)
                    (or_introl (conj eq_refl eq_refl)) ltac:(lia)) UInt32BE).
    + reflexivity.
    + vm_compute. reflexivity.
  - apply (proj2 (read_beyond_length_fails (P := sample) 2 5 (Num (Int 2)) "utf8"
                    (_buff five_of_eight) (Int 5) (Int 0)
                    (or_intror eq_refl) ltac:(lia)) DoubleLE).
    vm_compute. reflexivity.
Defined.

Lemma failed_read_changes_nothing_witness :
  snd (readInteger (P := sample) BigInt64BE (Num (Fin (1 # 2))) five_of_eight)
  = five_of_eight.
Proof.
  apply (proj1 (failed_read_changes_nothing (P := sample) (Num (Fin (1 # 2)))
                  five_of_eight
                  (snd (readInteger (P := sample) BigInt64BE
                          (Num (Fin (1 # 2))) five_of_eight))
                  INVALID_OFFSET) BigInt64BE).
  vm_compute. reflexivity.
Defined.

(** ** Writes *)

Section Writes.
Context {P : Platform}.

(** The run of a write, at the cursor or at an explicit offset. *)
Lemma write_run (d : Data) (o L w r : Z) (offset : value) e b :
  acceptable d ->
  offset = undefined /\ w = o \/ offset = Num (Int o) ->
  0 <= o -> 0 <= w ->
  let s := mkSmartBuffer (Int L) e b (Int w) (Int r) in
  let k := Buffer.size (payload d s) in
  write d offset s
  = (Ok tt,
     mkSmartBuffer (Int (Z.max L (o + k))) e
       (Buffer.overwrite (grow b (o + k)) o (payload d s))
       (Int (Z.max w (o + k))) (Int r)).
Proof.
  intros Hd Hoff Ho Hw s k. subst s k.
  pose proof (size_nonneg (payload d (mkSmartBuffer (Int L) e b (Int w) (Int r)))).
  destruct Hoff as [[-> ->]| ->].
  - rewrite write_rel by trivial. cbv zeta. do 3 f_equal. lia.
  - rewrite write_at by trivial. cbv zeta. now rewrite Math_max_Int.
Qed.



End Writes.



(** ** Writes followed by reads *)

Section Composition.
Context {P : Platform}.

Lemma readBuffer_Int (n L r : Z) e b W :
  0 <= n -> 0 <= r -> r + n <= L -> L <= Buffer.size b ->
  readBuffer (Num (Int n)) (mkSmartBuffer (Int L) e b W (Int r))
  = (Ok (firstn (Z.to_nat n) (skipn (Z.to_nat r) b)),
     mkSmartBuffer (Int L) e b W (Int (r + n))).
Proof.
  intros Hn Hr Hfit HL. unfold readBuffer. run. rewrite checkLengthValue_Int.
  destruct (Z.ltb_spec n 0); [lia|]. fields.
  rewrite nadd_Int, Math_min_Int, Z.min_r by lia.
  rewrite slice_Int by lia. rewrite !Z.min_l by lia.
  do 3 f_equal. lia.
Qed.


End Composition.


(** ** Inserts over the end, and refused offsets *)

Section Inserts.
Context {P : Platform}.


(** X10: every insert checks its offset before anything else it does to
    the instance: when [checkOffsetValue] refuses the offset, an absent
    one included, the insert of acceptable data, and the insert of a
    terminated string or buffer, fail with that error and leave the
    instance as it was. *)
Theorem insert_checks_offset_first (offset : value) (err : Error)
    (s : SmartBuffer) :
  checkOffsetValue offset = Throw err ->
  (forall d : Data, acceptable d -> insert d offset s = (Throw err, s)) /\
  (forall (v : string) (encoding : value),
      insertStringNT v offset encoding s = (Throw err, s)) /\
  (forall v : Buffer, insertBufferNT v offset s = (Throw err, s)).
Proof.
  intros Hbad. split; [|split].
  - intros d Hd. destruct d as [sh v|sh v|v|v encoding]; cbn [insert acceptable] in *.
    + destruct Hd as [_ Hs]. rewrite insertInteger_run by trivial.
      unfold _insertNumberValue. run. now rewrite Hbad.
    + rewrite insertFloat_run. unfold _insertNumberValue. run. now rewrite Hbad.
    + unfold insertBuffer. run. now rewrite Hbad.
    + unfold insertString. run. now rewrite Hbad.
  - intros v encoding. unfold insertStringNT. run. now rewrite Hbad.
  - intros v. unfold insertBufferNT. run. now rewrite Hbad.
Qed.

(** X11: a fixed-width write checks an explicit numeric offset before
    anything else it does to the instance: a negative one, whole or not,
    is refused with INVALID_WRITE_BEYOND_BOUNDS, any other that is not a
    whole number with INVALID_OFFSET, whatever the value to write, and
    the instance stays as it was; an offset that is not a number is
    ignored, the write going to the write cursor. *)
Theorem fixed_write_checks_offset_first (n : number) (s : SmartBuffer) :
  ~ whole_and_not_negative (Num n) ->
  let err :=
    if nlt n (Int 0) then INVALID_WRITE_BEYOND_BOUNDS else INVALID_OFFSET in
  (forall (sh : IntegerShape) (v : Z),
      supported sh false = true ->
      writeInteger sh v (Num n) s = (Throw err, s)) /\
  (forall (sh : FloatShape) (v : spec_float),
      writeFloat sh v (Num n) s = (Throw err, s)) /\
  (forall (sh : IntegerShape) (v : Z) (text : string),
      writeInteger sh v (Str text) s = writeInteger sh v undefined s) /\
  (forall (sh : FloatShape) (v : spec_float) (text : string),
      writeFloat sh v (Str text) s = writeFloat sh v undefined s).
Proof.
  intros Hbad err.
  assert (Hrun : forall (T : Type) (func : Buffer -> T -> number -> Result Buffer)
                   (k : number) (v : T),
             _writeNumberValue func k v (Num n) s = (Throw err, s)).
  { intros T func k v. unfold _writeNumberValue. run. subst err.
    destruct (nlt n (Int 0)); [reflexivity|].
    now rewrite checkOffsetValue_refused. }
  split; [|split; [|split]].
  - intros sh v Hs. rewrite writeInteger_run by trivial. apply Hrun.
  - intros sh v. rewrite writeFloat_run. apply Hrun.
  - intros sh v text. destruct sh; reflexivity.
  - intros sh v text. destruct sh; reflexivity.
Qed.

(** X12: a fixed-width write of an integer outside the range of its
    shape fails in the platform's accessor, after the store has been
    grown and the logical length raised for the field: the instance is
    left with the length [max L (w + k)] and nothing written. *)
Theorem write_out_of_range_after_growth (sh : IntegerShape) (v w L : Z)
    e b R :
  supported sh false = true -> ~ representable sh v -> 0 <= w ->
  let k := Z.of_nat (Buffer.int_bytes (layout sh)) in
  writeInteger sh v undefined (mkSmartBuffer (Int L) e b (Int w) R)
  = (Throw RangeError,
     mkSmartBuffer (Int (Z.max L (w + k))) e (grow b (w + k)) (Int w) R).
Proof.
  intros Hs Hv Hw k. rewrite writeInteger_run by trivial.
  unfold Buffer.size. rewrite bytes_of_int_length. fold k.
  unfold _writeNumberValue. run. fields.
  rewrite ensureWriteable_Int. fields.
  unfold Buffer.writeInteger. unfold representable in Hv.
  destruct (Z.ltb_spec v (Buffer.minValue (layout sh)));
    destruct (Z.ltb_spec (Buffer.maxValue (layout sh)) v);
    cbn [orb]; try reflexivity.
  lia.
Qed.

End Inserts.


Lemma insert_checks_offset_first_witness :
  insert (P := sample) (AnInteger UInt8 1) undefined five_of_eight
  = (Throw INVALID_OFFSET_NON_NUMBER, five_of_eight) /\
  insertBufferNT (P := sample) [Byte.x01] (Num (Int (-1))) five_of_eight
  = (Throw INVALID_OFFSET, five_of_eight).
Proof.
  split.
  - apply (proj1 (insert_checks_offset_first (P := sample) undefined
                    INVALID_OFFSET_NON_NUMBER five_of_eight eq_refl)).
    vm_compute. intuition congruence.
  - apply (proj2 (proj2 (insert_checks_offset_first (P := sample)
                           (Num (Int (-1))) INVALID_OFFSET five_of_eight
                           eq_refl))).
Defined.

Lemma fixed_write_checks_offset_first_witness :
  writeInteger (P := sample) UInt8 1 (Num (Int (-1))) empty_of_four
  = (Throw INVALID_WRITE_BEYOND_BOUNDS, empty_of_four) /\
  writeFloat (P := sample) DoubleBE (S754_zero false) (Num (Fin (3 # 2))) empty_of_four
  = (Throw INVALID_OFFSET, empty_of_four).
Proof.
  split.
  - apply (proj1 (fixed_write_checks_offset_first (P := sample) (Int (-1))
                    empty_of_four
                    ltac:(intros (q & [= <-] & _ & H); vm_compute in H; now apply H))
             UInt8 1 eq_refl).
  - apply (proj1 (proj2 (fixed_write_checks_offset_first (P := sample)
                           (Fin (3 # 2)) empty_of_four
                           ltac:(intros (q & [= <-] & H & _); vm_compute in H;
                                 discriminate H)))
             DoubleBE (S754_zero false)).
Defined.

Lemma write_out_of_range_after_growth_witness :
  writeInteger (P := sample) UInt8 256 undefined empty_of_four
  = (Throw RangeError, with_length (Int 1) empty_of_four).
Proof.
  apply (write_out_of_range_after_growth (P := sample) UInt8 256 0 0 "utf8"
           (_buff empty_of_four) (Int 0) eq_refl).
  - vm_compute. intros [_ H]. now apply H.
  - lia.
Defined.

(** ** Construction *)

Section Construction.
Context {P : Platform}.

Lemma accepted_encoding (encoding : value) :
  value_truthy encoding = true -> checkEncoding encoding = Ok tt ->
  exists e : string, encoding = Str e /\ isEncoding e = true.
Proof.
  intros _ H. destruct encoding as [| |e]; try discriminate.
  exists e. split; trivial. cbn in H. now destruct (isEncoding e).
Qed.

(** X13: [fromSize] of a whole number [n] above zero, with an encoding
    argument that is absent, empty or accepted by [checkEncoding], makes
    an instance with a store of exactly [n] bytes, no live byte, both
    cursors at 0 and the encoding given, or else utf8; it is within the
    invariant. *)
Theorem fromSize_makes_empty (n : Z) (encoding : value) :
  0 < n ->
  (value_truthy encoding = true -> checkEncoding encoding = Ok tt) ->
  exists s : SmartBuffer,
    fromSize (Num (Int n)) encoding = Ok s /\
    length s = Int 0 /\ _writeOffset s = Int 0 /\ _readOffset s = Int 0 /\
    Buffer.size (_buff s) = n /\
    _encoding s = encoding_or encoding DEFAULT_SMARTBUFFER_ENCODING /\
    live s = [] /\ invariant s.
Proof.
  intros Hn Henc. unfold fromSize, new, constructor.
  assert (His : isSmartBufferOptions (Object encoding (Num (Int n)) (AValue undefined))
                = true).
  { cbn. now destruct (is_defined encoding). }
  rewrite His. cbn [value_truthy ToNumber].
  assert (Ht : truthy (Int n) = true).
  { unfold truthy, Int. change 0%Q with (inject_Z 0).
    rewrite Qeq_bool_inject_Z. destruct (Z.eqb_spec n 0); [lia | reflexivity]. }
  rewrite Ht, isFiniteInteger_Int, ngt_Int.
  destruct (Z.ltb_spec 0 n); [|lia]. cbn [andb].
  rewrite allocUnsafe_Int by lia. unfold encoding_or.
  assert (Hsz : Buffer.size (map unsafe_byte (seq 0 (Z.to_nat n))) = n).
  { unfold Buffer.size. rewrite length_map, length_seq. lia. }
  destruct (value_truthy encoding) eqn:Hv.
  - destruct (accepted_encoding encoding Hv (Henc eq_refl)) as (e & -> & He).
    run. cbn [checkEncoding]. rewrite He. unfold initial.
    cbn [with_encoding with_buff length _buff _encoding _writeOffset _readOffset
         encoding_name].
    eexists. split; [reflexivity|]. fields.
    repeat split; trivial.
    + apply live_Int. lia.
    + exists 0, 0, 0. fields. repeat split; trivial; lia.
  - run. unfold initial.
    cbn [with_encoding with_buff length _buff _encoding _writeOffset _readOffset].
    eexists. split; [reflexivity|]. fields.
    repeat split; trivial.
    + apply live_Int. lia.
    + exists 0, 0, 0. fields. repeat split; trivial; lia.
Qed.


(** X15: what the constructor refuses.  An argument that is [null], or
    an object with none of the three options, is refused with
    INVALID_SMARTBUFFER_OBJECT; a truthy encoding that [checkEncoding]
    does not accept with INVALID_ENCODING, whatever the other options;
    then a truthy size that is not a whole number above zero with
    INVALID_SMARTBUFFER_SIZE, whatever [buff] is; then, the size being
    absent, a truthy [buff] that is not a buffer with
    INVALID_SMARTBUFFER_BUFFER. *)
Theorem constructor_refusals (encoding size : value) (buff : AnyBuffer) :
  new NullOptions = Throw INVALID_SMARTBUFFER_OBJECT /\
  new (Object undefined undefined (AValue undefined))
  = Throw INVALID_SMARTBUFFER_OBJECT /\
  (value_truthy encoding = true -> checkEncoding encoding <> Ok tt ->
   new (Object encoding size buff) = Throw INVALID_ENCODING) /\
  (value_truthy encoding = false ->
   value_truthy size = true ->
   isFiniteInteger size && ngt (ToNumber size) (Int 0) = false ->
   new (Object encoding size buff) = Throw INVALID_SMARTBUFFER_SIZE) /\
  (forall v : value,
      value_truthy encoding = false -> value_truthy v = true ->
      new (Object encoding undefined (AValue v))
      = Throw INVALID_SMARTBUFFER_BUFFER).
Proof.
  split; [reflexivity|]. split; [reflexivity|]. split; [|split].
  - intros Ht Hbad. unfold new, constructor.
    assert (His : isSmartBufferOptions (Object encoding size buff) = true).
    { cbn. destruct encoding; [discriminate| |]; reflexivity. }
    rewrite His, Ht. run.
    destruct (checkEncoding encoding) as [[]|err] eqn:E; [now destruct Hbad|].
    destruct encoding as [| |e]; cbn in E.
    + now injection E as <-.
    + now injection E as <-.
    + destruct (isEncoding e); [discriminate | now injection E as <-].
  - intros Hf Ht Hbad. unfold new, constructor.
    assert (His : isSmartBufferOptions (Object encoding size buff) = true).
    { cbn. destruct size; [discriminate| |]; now rewrite orb_true_r. }
    rewrite His, Hf, Ht, Hbad. reflexivity.
  - intros v Hf Ht. unfold new, constructor.
    assert (His : isSmartBufferOptions (Object encoding undefined (AValue v)) = true).
    { cbn. destruct v; [discriminate| |]; now rewrite orb_true_r. }
    rewrite His, Hf. cbn [value_truthy buff_truthy]. rewrite Ht. reflexivity.
Qed.

End Construction.

(** ** Encodings and platform capabilities *)

Section Capabilities.
Context {P : Platform}.


(** X17: a 64-bit method on a platform that does not support its shape
    fails before it looks at its arguments and leaves the instance as it
    was: with PLATFORM_NO_BIGINT when the platform has no BigInt, and
    with PLATFORM_NO_BUFFER_METHOD when it has BigInt but not the
    accessor of the method. *)
Theorem sixty_four_bit_needs_platform (sh : IntegerShape) (v : Z)
    (offset : value) (s : SmartBuffer) :
  let err :=
    if hasBigInt then PLATFORM_NO_BUFFER_METHOD else PLATFORM_NO_BIGINT in
  (supported sh false = false ->
   writeInteger sh v offset s = (Throw err, s) /\
   insertInteger sh v offset s = (Throw err, s)) /\
  (supported sh true = false ->
   readInteger sh offset s = (Throw err, s)).
Proof.
  intros err. subst err. unfold supported.
  split; intros Hs; destruct sh; try discriminate; cbn [accessor] in Hs;
    cbn [writeInteger insertInteger readInteger];
    unfold writeBigInt64BE, writeBigInt64LE, writeBigUInt64BE, writeBigUInt64LE,
      insertBigInt64BE, insertBigInt64LE, insertBigUInt64BE, insertBigUInt64LE,
      readBigInt64BE, readBigInt64LE, readBigUInt64BE, readBigUInt64LE;
    unfold bind, lift, bigIntAndBufferInt64Check;
    destruct hasBigInt; cbn [negb andb] in *; rewrite ?Hs; cbn [negb];
    try split; reflexivity.
Qed.

End Capabilities.

Lemma fromSize_makes_empty_witness :
  exists s : SmartBuffer,
    fromSize (P := sample) (Num (Int 4)) (Str "ascii") = Ok s /\
    length s = Int 0 /\ Buffer.size (_buff s) = 4 /\
    _encoding s = "ascii"%string.
Proof.
  destruct (fromSize_makes_empty (P := sample) 4 (Str "ascii") ltac:(lia)
              (fun _ => eq_refl))
    as (s & Hrun & Hlen & _ & _ & Hsz & Henc & _).
  exists s. repeat split; assumption.
Defined.

Lemma constructor_refusals_witness :
  new (P := sample) (Object (Str "klingon") (Num (Int 4)) (AValue undefined))
  = Throw INVALID_ENCODING /\
  new (P := sample) (Object undefined (Num (Int (-4))) (ABuffer []))
  = Throw INVALID_SMARTBUFFER_SIZE /\
  new (P := sample) (Object undefined undefined (AValue (Num (Int 7))))
  = Throw INVALID_SMARTBUFFER_BUFFER.
Proof.
  split; [|split].
  - apply (proj1 (proj2 (proj2 (constructor_refusals (P := sample)
                                  (Str "klingon") (Num (Int 4))
                                  (AValue undefined)))));
      [reflexivity | discriminate].
  - apply (proj1 (proj2 (proj2 (proj2 (constructor_refusals (P := sample)
                                         undefined (Num (Int (-4)))
                                         (ABuffer []))))));
      reflexivity.
  - apply (proj2 (proj2 (proj2 (proj2 (constructor_refusals (P := sample)
                                         undefined undefined
                                         (AValue undefined)))))
             (Num (Int 7))); reflexivity.
Defined.


Lemma sixty_four_bit_needs_platform_witness :
  writeInteger (P := without_bigint) BigInt64BE 1 undefined empty_of_four
  = (Throw PLATFORM_NO_BIGINT, empty_of_four) /\
  readInteger (P := without_bigint) BigUInt64LE (Num (Int 0)) empty_of_four
  = (Throw PLATFORM_NO_BIGINT, empty_of_four).
Proof.
  split.
  - apply (proj1 (sixty_four_bit_needs_platform (P := without_bigint)
                    BigInt64BE 1 undefined empty_of_four)).
    reflexivity.
  - apply (proj2 (sixty_four_bit_needs_platform (P := without_bigint)
                    BigUInt64LE 0 (Num (Int 0)) empty_of_four)).
    reflexivity.
Defined.


(** ** Terminated strings and buffers *)

Section Terminated.
Context {P : Platform}.

Lemma scan_terminated (b v : list byte) (w L : Z) :
  0 <= w -> w + Buffer.size v < L -> L <= Buffer.size b ->
  terminated_at b w v -> ~ In Byte.x00 v ->
  findNull (iterations (Int w) (Int L)) b (Int w) (Int L)
  = Int (w + Buffer.size v) /\
  Buffer.slice b (Int w) (Int (w + Buffer.size v)) = v.
Proof.
  intros Hw HL Hcap (Hfit & Hzero & Hdata) Hnz.
  pose proof (size_nonneg v) as Hk. split.
  - rewrite iterations_Int. apply findNull_first; trivial; try lia.
    intros j Hj E.
    replace (Z.to_nat j) with (Z.to_nat w + Z.to_nat (j - w))%nat in E by lia.
    rewrite Hdata in E by (unfold Buffer.size in *; lia).
    apply Hnz. eapply nth_error_In. exact E.
  - rewrite slice_Int by lia. rewrite !Z.min_l by lia.
    replace (Z.to_nat (w + Buffer.size v - w)) with (List.length v)
      by (unfold Buffer.size; lia).
    apply window_of_nth; trivial. unfold Buffer.size in *. lia.
Qed.

(** A write at the cursor followed by the write of a zero byte at the
    cursor it left. *)
Lemma write_then_terminator (d : Data) (w L : Z) e b R :
  acceptable d -> 0 <= w -> L <= Buffer.size b ->
  let s := mkSmartBuffer (Int L) e b (Int w) R in
  let k := Buffer.size (payload d s) in
  exists b' : Buffer,
    (write d undefined;; s1 <- this;; writeUInt8 0 (Num (_writeOffset s1))) s
    = (Ok tt, mkSmartBuffer (Int (Z.max L (w + k + 1))) e b' (Int (w + k + 1)) R) /\
    terminated_at b' w (payload d s) /\
    Z.max L (w + k + 1) <= Buffer.size b'.
Proof.
  intros Hd Hw Hcap s k. subst s k.
  set (s := mkSmartBuffer (Int L) e b (Int w) R).
  set (bytes := payload d s) in *.
  remember (Buffer.size bytes) as k eqn:Hkdef.
  assert (Hk : 0 <= k) by (subst k; apply size_nonneg).
  set (b1 := Buffer.overwrite (grow b (w + k)) w bytes).
  set (s1 := mkSmartBuffer (Int (Z.max L (w + k))) e b1 (Int (w + k)) R).
  assert (H1 : write d undefined s = (Ok tt, s1)).
  { unfold s. rewrite write_rel by (trivial; lia). cbv zeta. fold s. fold bytes.
    now rewrite <- Hkdef. }
  assert (Hzero : acceptable (AnInteger UInt8 0)).
  { split; [apply representable_bounds | reflexivity]. }
  set (b2 := Buffer.overwrite (grow b1 (w + k + 1)) (w + k) [Byte.x00]).
  assert (H2 : writeUInt8 0 (Num (Int (w + k))) s1
               = (Ok tt, mkSmartBuffer (Int (Z.max L (w + k + 1))) e b2
                           (Int (w + k + 1)) R)).
  { change (writeUInt8 0 (Num (Int (w + k)))) with
      (write (AnInteger UInt8 0) (Num (Int (w + k)))).
    unfold s1. rewrite write_at by (trivial; lia). cbv zeta.
    change (payload (AnInteger UInt8 0) _) with [Byte.x00].
    change (Buffer.size [Byte.x00]) with 1.
    rewrite Math_max_Int. fold b2.
    replace (Z.max (Z.max L (w + k)) (w + k + 1)) with (Z.max L (w + k + 1))
      by lia.
    replace (Z.max (w + k) (w + k + 1)) with (w + k + 1) by lia.
    reflexivity. }
  pose proof (size_grow_ge b (w + k)) as [Hg1 Hg1'].
  assert (Hb1 : Buffer.size b1 = Buffer.size (grow b (w + k)))
    by (apply overwrite_length; lia).
  pose proof (size_grow_ge b1 (w + k + 1)) as [Hg2 Hg2'].
  assert (Hb2 : Buffer.size b2 = Buffer.size (grow b1 (w + k + 1)))
    by (apply overwrite_length; change (Buffer.size [Byte.x00]) with 1; lia).
  exists b2. split; [|split].
  - unfold bind at 1. rewrite H1. unfold bind, this. exact H2.
  - split; [lia|]. split.
    + unfold b2. rewrite overwrite_nth
        by (change (Buffer.size [Byte.x00]) with 1; lia).
      rewrite <- Hkdef. cbn [List.length].
      destruct (Nat.leb_spec (Z.to_nat (w + k)) (Z.to_nat (w + k))); [|lia].
      destruct (Nat.ltb_spec (Z.to_nat (w + k)) (Z.to_nat (w + k) + 1)); [|lia].
      cbn [andb]. now rewrite Nat.sub_diag.
    + intros i Hi. unfold b2.
      rewrite overwrite_nth by (change (Buffer.size [Byte.x00]) with 1; lia).
      destruct (Nat.leb_spec (Z.to_nat (w + k)) (Z.to_nat w + i));
        [unfold Buffer.size in *; lia|]. cbn [andb].
      rewrite grow_nth by (unfold Buffer.size in *; lia).
      unfold b1. rewrite overwrite_nth by lia.
      destruct (Nat.leb_spec (Z.to_nat w) (Z.to_nat w + i)); [|lia].
      destruct (Nat.ltb_spec (Z.to_nat w + i) (Z.to_nat w + List.length bytes));
        [|lia].
      cbn [andb]. f_equal. lia.
  - lia.
Qed.



(** X20: on an instance within its invariant, with the first zero byte
    of the live bytes from the read cursor [r] on at [z], [readBufferNT]
    returns the live bytes from [r] up to [z], [readStringNT] their
    decoding, and both leave the read cursor just past the zero byte,
    within the logical length: the instance stays within its
    invariant. *)
Theorem terminated_read (L r z : Z) (s : SmartBuffer) :
  invariant s -> length s = Int L -> _readOffset s = Int r ->
  r <= z < L ->
  nth_error (live s) (Z.to_nat z) = Some Byte.x00 ->
  (forall j : Z,
      r <= j < z -> nth_error (live s) (Z.to_nat j) <> Some Byte.x00) ->
  let run := firstn (Z.to_nat (z - r)) (skipn (Z.to_nat r) (live s)) in
  readBufferNT s = (Ok run, with_readOffset (Int (z + 1)) s) /\
  readStringNT undefined s
  = (Ok (decodeText (_encoding s) run), with_readOffset (Int (z + 1)) s) /\
  invariant (with_readOffset (Int (z + 1)) s).
Proof.
  intros (L' & w & r' & HL & HW & HR & Hr & Hw & Hcap) HL' HR' Hz Hzero Hnone run.
  destruct s as [len e b W R]. cbn [length _buff _writeOffset _readOffset _encoding] in *.
  subst len W R. apply Int_inj in HL', HR'. subst L' r'. subst run.
  rewrite live_Int in * by lia.
  assert (Hb : forall j : Z, 0 <= j < L ->
             nth_error (firstn (Z.to_nat L) b) (Z.to_nat j)
             = nth_error b (Z.to_nat j))
    by (intros j Hj; apply nth_firstn_below; lia).
  rewrite Hb in Hzero by lia.
  assert (Hnone' : forall j : Z,
             r <= j < z -> nth_error b (Z.to_nat j) <> Some Byte.x00).
  { intros j Hj. rewrite <- Hb by lia. now apply Hnone. }
  assert (Hscan : findNull (iterations (Int r) (Int L)) b (Int r) (Int L) = Int z).
  { rewrite iterations_Int. apply findNull_first; trivial; lia. }
  assert (Hslice : Buffer.slice b (Int r) (Int z)
                   = firstn (Z.to_nat (z - r))
                       (skipn (Z.to_nat r) (firstn (Z.to_nat L) b)))
    by (apply live_run; lia).
  split; [|split].
  - unfold readBufferNT. run. fields. now rewrite Hscan, Hslice, nadd_Int.
  - unfold readStringNT. run. fields. now rewrite Hscan, Hslice, nadd_Int.
  - exists L, w, (z + 1). fields. repeat split; trivial; lia.
Qed.

(** ** Clearing *)


End Terminated.



Lemma terminated_read_witness :
  readBufferNT ab_nul_c
  = (Ok [Byte.x61; Byte.x62], with_readOffset (Int 3) ab_nul_c) /\
  invariant (with_readOffset (Int 3) ab_nul_c).
Proof.
  destruct (terminated_read (P := sample) 4 0 2 ab_nul_c) as (Hb & _ & Hinv).
  - exists 4, 0, 0. vm_compute. intuition congruence.
  - reflexivity.
  - reflexivity.
  - lia.
  - reflexivity.
  - intros j Hj.
    assert (Hc : j = 0 \/ j = 1) by lia.
    destruct Hc as [-> | ->]; discriminate.
  - split; [exact Hb | exact Hinv].
Defined.



(** ** Terminated inserts, and arguments checked first *)

Section More.
Context {P : Platform}.

(** The live bytes after an insert within the logical length or at its
    end. *)
Lemma insert_spliced (d : Data) (o L : Z) e b W R :
  acceptable d -> 0 <= o <= L -> L <= Buffer.size b ->
  let s := mkSmartBuffer (Int L) e b W R in
  let bytes := payload d s in
  o + Buffer.size bytes <= L \/ o = L ->
  exists b' : Buffer,
    insert d (Num (Int o)) s
    = (Ok tt, mkSmartBuffer (Int (L + Buffer.size bytes)) e b'
                (nadd W (Int (Buffer.size bytes))) R) /\
    L + Buffer.size bytes <= Buffer.size b' /\
    firstn (Z.to_nat (L + Buffer.size bytes)) b'
    = firstn (Z.to_nat o) b ++ bytes ++ skipn (Z.to_nat o) (firstn (Z.to_nat L) b).
Proof.
  intros Hd Ho Hcap s bytes Hrange. subst s.
  set (s := mkSmartBuffer (Int L) e b W R) in *.
  remember (Buffer.size bytes) as k eqn:Hkdef.
  assert (Hk : 0 <= k) by (subst k; apply size_nonneg).
  pose proof (size_grow_ge b (L + k)) as [Hg _].
  pose proof (insert_at d o L e b W R Hd (proj1 Ho) Hcap) as Hrun.
  cbv zeta in Hrun. fold s in Hrun. fold bytes in Hrun. rewrite <- Hkdef in Hrun.
  exists (Buffer.overwrite (opened b L o k) o bytes). split; [|split].
  - rewrite Hrun by lia. do 3 f_equal.
    destruct (Z.ltb_spec L (o + k)); lia.
  - rewrite overwrite_length; rewrite ?size_opened; lia.
  - subst k. apply splice; trivial.
Qed.


(** X23: the reads check their numeric argument before anything else: a
    fixed-width read given an offset, a string included, that
    [checkOffsetValue] refuses, and [readBuffer] and [readString] given
    a length that [checkLengthValue] refuses, fail with the error of
    the check and leave the instance as it was.  So does [writeBufferNT]
    given an offset that [checkOffsetValue] refuses. *)
Theorem checked_arguments_fail_first (arg : value) (err : Error)
    (s : SmartBuffer) :
  arg <> undefined ->
  (checkOffsetValue arg = Throw err ->
   (forall sh : IntegerShape,
       supported sh true = true -> readInteger sh arg s = (Throw err, s)) /\
   (forall sh : FloatShape, readFloat sh arg s = (Throw err, s)) /\
   (forall v : Buffer, writeBufferNT v arg s = (Throw err, s))) /\
  (checkLengthValue arg = Throw err ->
   readBuffer arg s = (Throw err, s) /\
   (forall (n : number) (encoding : value),
       arg = Num n -> readString arg encoding s = (Throw err, s))).
Proof.
  intros Hdef. split.
  - intros Hbad.
    assert (Hrun : forall (T : Type) (func : Buffer -> number -> Result T)
                     (k : number),
               _readNumberValue func k arg s = (Throw err, s)).
    { intros T func k. unfold _readNumberValue, ensureReadable. run.
      destruct arg as [|n|str]; [now destruct Hdef | |]; now rewrite Hbad. }
    split; [|split].
    + intros sh Hs. rewrite (readInteger_run sh 0) by trivial. apply Hrun.
    + intros sh. rewrite (readFloat_run sh S754_nan). apply Hrun.
    + intros v. unfold writeBufferNT. run.
      destruct arg as [|n|str]; [now destruct Hdef | |]; now rewrite Hbad.
  - intros Hbad. split.
    + unfold readBuffer. run.
      destruct arg as [|n|str]; [now destruct Hdef | |]; now rewrite Hbad.
    + intros n encoding ->. unfold readString. run. now rewrite Hbad.
Qed.

(** X24: the overloads of [writeString]: an accepted encoding name
    given in the place of the offset is the encoding of the write, which
    goes to the write cursor, as if the name had been given third; when
    names are given in both places the third is the one used, the second
    being checked all the same. *)
Theorem writeString_encoding_places (v e e' : string) (s : SmartBuffer) :
  isEncoding e = true ->
  writeString v (Str e) undefined s = writeString v undefined (Str e) s /\
  (isEncoding e' = true ->
   writeString v (Str e) (Str e') s = writeString v undefined (Str e') s) /\
  (isEncoding e' = false ->
   writeString v (Str e') (Str e) s = (Throw INVALID_ENCODING, s)).
Proof.
  intros He. unfold writeString, _handleString. split; [|split].
  - run. cbn [checkEncoding]. rewrite He. reflexivity.
  - intros He'. run. cbn [checkEncoding]. rewrite He, He'. reflexivity.
  - intros He'. run. cbn [checkEncoding]. rewrite He'. reflexivity.
Qed.

End More.


Lemma checked_arguments_fail_first_witness :
  readInteger (P := sample) UInt8 (Str "0") five_of_eight
  = (Throw INVALID_OFFSET_NON_NUMBER, five_of_eight) /\
  writeBufferNT (P := sample) [Byte.x01] (Num (Int (-1))) five_of_eight
  = (Throw INVALID_OFFSET, five_of_eight) /\
  readBuffer (Num (Fin (1 # 2))) five_of_eight
  = (Throw INVALID_LENGTH, five_of_eight).
Proof.
  split; [|split].
  - apply (proj1 (proj1 (checked_arguments_fail_first (P := sample) (Str "0")
                           INVALID_OFFSET_NON_NUMBER five_of_eight
                           ltac:(discriminate)) eq_refl) UInt8 eq_refl).
  - apply (proj2 (proj2 (proj1 (checked_arguments_fail_first (P := sample)
                                  (Num (Int (-1))) INVALID_OFFSET five_of_eight
                                  ltac:(discriminate)) eq_refl))).
  - apply (proj1 (proj2 (checked_arguments_fail_first (P := sample)
                           (Num (Fin (1 # 2))) INVALID_LENGTH five_of_eight
                           ltac:(discriminate)) eq_refl)).
Defined.

Lemma writeString_encoding_places_witness :
  writeString (P := sample) "hi" (Str "ascii") undefined empty_of_four
  = writeString (P := sample) "hi" undefined (Str "ascii") empty_of_four.
Proof.
  apply (proj1 (writeString_encoding_places (P := sample) "hi" "ascii" "hex"
                  empty_of_four eq_refl)).
Defined.
